(** * Wplace Shortlink: the link normaliser and its DOM synchronisation

    A shallow embedding of [Wplace_Shortlink.user.js].  The script's own
    functions ([round3], [extractAndFormatUrl], [findRenderedText],
    [isTargetInput], [applyFormattedIfNeeded], [processElement],
    [scanAndProcess], [bindEventsTo], [bindExistingAndFuture],
    [extractWplaceUrl], [findCandidateString], [normalizeAndRoundUrl], the
    click handler and [tryInstallLater]) are translated one by one.  The
    platform operations they call are modelled after their standards:

    - ECMAScript: Number values are IEEE 754 binary64 ([SpecFloat] with
      precision 53), [Number(v)], [parseFloat], [isFinite], [Math.round],
      [Number.prototype.toFixed], [String.prototype.trim], the regular
      expressions of the script (written out as matchers with the backtracking
      order of the standard);
    - WHATWG URL: the basic URL parser without a base URL, the
      [application/x-www-form-urlencoded] parser behind [URLSearchParams], and
      the [host], [pathname], [search] and [hash] getters.

    A JavaScript string is represented by its UTF-8 encoding (a [string] of
    bytes), so ASCII text is represented by itself. *)

From Stdlib Require Import ZArith List String Ascii Bool Lia.
From Stdlib Require Import Floats Uint63 DecimalString.
From stdpp Require Import gmap strings.

Open Scope string_scope.

(** stdpp blocks the unfolding of string concatenation by [simpl]; the proofs
    below compute with literal prefixes. *)
#[local] Arguments String.append !s1 s2 : simpl nomatch.

(** ** Characters and strings *)

Definition code (c : ascii) : N := N_of_ascii c.

Definition inRange (lo hi : N) (c : ascii) : bool :=
  ((lo <=? code c) && (code c <=? hi))%N.

Definition isDigit (c : ascii) : bool :=
  match c with
  | "0" | "1" | "2" | "3" | "4" | "5" | "6" | "7" | "8" | "9" => true
  | _ => false
  end%char.
Definition isUpper (c : ascii) : bool := inRange 65 90 c.
Definition isLower (c : ascii) : bool := inRange 97 122 c.
Definition isAlpha (c : ascii) : bool := isUpper c || isLower c.
Definition isAlnum (c : ascii) : bool := isAlpha c || isDigit c.
Definition isHex (c : ascii) : bool :=
  isDigit c || inRange 65 70 c || inRange 97 102 c.

(** ASCII lower-casing; a regular expression with the [i] flag and no [u] flag
    never identifies an ASCII character with a non-ASCII one. *)
Definition toLower (c : ascii) : ascii :=
  if isUpper c then ascii_of_N (code c + 32) else c.

Definition eqci (a b : ascii) : bool := Ascii.eqb (toLower a) (toLower b).

Fixpoint lowerStr (s : string) : string :=
  match s with
  | "" => ""
  | String c r => String (toLower c) (lowerStr r)
  end.

Fixpoint bytes (l : list N) : string :=
  match l with
  | [] => ""
  | n :: r => String (ascii_of_N n) (bytes r)
  end.

Fixpoint dropN (n : nat) (s : string) : string :=
  match n, s with
  | S k, String _ r => dropN k r
  | _, _ => s
  end.

Fixpoint takeN (n : nat) (s : string) : string :=
  match n, s with
  | S k, String c r => String c (takeN k r)
  | _, _ => ""
  end.

(** [stripPrefix p s]: the rest of [s] after the literal prefix [p]. *)
Fixpoint stripPrefix (p s : string) : option string :=
  match p, s with
  | "", _ => Some s
  | String a p', String b s' => if Ascii.eqb a b then stripPrefix p' s' else None
  | _, _ => None
  end.

(** The same, comparing ASCII letters without regard to case. *)
Fixpoint stripPrefixCi (p s : string) : option string :=
  match p, s with
  | "", _ => Some s
  | String a p', String b s' => if eqci a b then stripPrefixCi p' s' else None
  | _, _ => None
  end.

Definition isEmpty (s : string) : bool :=
  match s with "" => true | _ => false end.

(** JavaScript truthiness of a string. *)
Definition truthy (s : string) : bool := negb (isEmpty s).

(** [skipWs s]: the rest of [s] after one white-space character at its head.
    These are the characters matched by [\s] (WhiteSpace and LineTerminator of
    ECMAScript), as UTF-8 byte sequences: TAB LF VT FF CR SP, U+00A0 (C2 A0),
    U+1680 (E1 9A 80), U+2000..U+200A (E2 80 80..8A), U+2028, U+2029, U+202F
    (E2 80 A8, A9, AF), U+205F (E2 81 9F), U+3000 (E3 80 80) and U+FEFF
    (EF BB BF). *)
Definition skipWs (s : string) : option string :=
  match s with
  | String ("009" | "010" | "011" | "012" | "013" | " ")%char r => Some r
  | String "194"%char (String "160"%char r) => Some r
  | String "225"%char (String "154"%char (String "128"%char r)) => Some r
  | String "226"%char (String "128"%char (String c r)) =>
      if inRange 128 138 c || inRange 168 169 c || (code c =? 175)%N then Some r else None
  | String "226"%char (String "129"%char (String "159"%char r)) => Some r
  | String "227"%char (String "128"%char (String "128"%char r)) => Some r
  | String "239"%char (String "187"%char (String "191"%char r)) => Some r
  | _ => None
  end.

Definition startsWs (s : string) : bool :=
  match skipWs s with Some _ => true | None => false end.

Fixpoint trimStartFuel (fuel : nat) (s : string) : string :=
  match fuel with
  | O => s
  | S f => match skipWs s with
           | Some r => trimStartFuel f r
           | None => s
           end
  end.

Definition trimStart (s : string) : string := trimStartFuel (String.length s) s.

Fixpoint trimEnd (s : string) : string :=
  match s with
  | "" => ""
  | String c r => if isEmpty (trimStart s) then "" else String c (trimEnd r)
  end.

(** [String.prototype.trim]. *)
Definition trim (s : string) : string := trimEnd (trimStart s).

(** ** Number values: IEEE 754 binary64

    Numbers are Rocq's primitive binary64 floats; [Prim2SF] and [SF2Prim]
    convert to and from their sign-mantissa-exponent form. *)

Definition float : Type := PrimFloat.float.

Definition NaN : float := PrimFloat.nan.

(** The Number value of an integer (round to nearest, ties to even).
    [of_uint63] is that conversion for the integers of 63 bits; the others
    go through [binary_normalize]. *)
Definition ofZ (k : Z) : float :=
  if (Z.abs k <? 4611686018427387904)%Z then (* 2^62 *)
    let x := PrimFloat.of_uint63 (Uint63.of_Z (Z.abs k)) in
    if (k <? 0)%Z then PrimFloat.opp x else x
  else SF2Prim (binary_normalize prec emax k 0 false).

Definition fmul : float -> float -> float := PrimFloat.mul.
Definition fdiv : float -> float -> float := PrimFloat.div.

(** [Number.isNaN] on a Number. *)
Definition isNaN (x : float) : bool := PrimFloat.is_nan x.

(** The global [isFinite] on a Number. *)
Definition isFinite (x : float) : bool := PrimFloat.is_finite x.

(** The Number value of the decimal [m * 10^e10] ([0 <= m]) with sign [neg],
    that is, the binary64 value nearest to it (ties to even).

    When [m < 2^53] and [10^-22 <= 10^e10 < 1], both [m] and [10^(-e10)] are
    Numbers and their correctly rounded quotient is that value.  Otherwise the
    quotient is taken on integers with more than 64 significant bits and a
    sticky bit, so that the single rounding of [binary_normalize] is the
    correct one.  Magnitudes beyond 10^400 and below 10^-400 are far outside
    the binary64 range and are answered directly. *)
Definition dec2float (neg : bool) (m e10 : Z) : float :=
  let sgf := fun x : float => if neg then PrimFloat.opp x else x in
  if (m <=? 0)%Z then sgf PrimFloat.zero
  else if (0 <=? e10)%Z then
    if (400 <? e10)%Z then sgf PrimFloat.infinity
    else sgf (ofZ (m * 10 ^ e10))
  else if (m <? 9007199254740992)%Z && (-22 <=? e10)%Z then (* 2^53 *)
    sgf (fdiv (ofZ m) (ofZ (10 ^ (- e10))))
  else
    let ub := ((Z.log2 m + 1) / 3 + 1)%Z in
    if (ub + e10 <? -400)%Z then sgf PrimFloat.zero
    else
      let d := (10 ^ (- e10))%Z in
      let k := Z.max 0 (66 + Z.log2 d - Z.log2 m)%Z in
      let '(q, r) := Z.div_eucl (Z.shiftl m k) d in
      let sticky := if (r =? 0)%Z then 0%Z else 1%Z in
      sgf (SF2Prim (binary_normalize prec emax (2 * q + sticky)%Z (- k - 1) false)).

(** *** Numeric literals in strings *)

Definition digitVal (c : ascii) : Z :=
  match c with
  | "1" => 1 | "2" => 2 | "3" => 3 | "4" => 4 | "5" => 5
  | "6" => 6 | "7" => 7 | "8" => 8 | "9" => 9 | _ => 0
  end%char%Z.

Definition hexVal (c : ascii) : Z :=
  if isDigit c then digitVal c
  else if inRange 65 70 c then Z.of_N (code c) - 55
  else Z.of_N (code c) - 87.

(** Leading decimal digits of [s]: the accumulated value, how many digits
    were read, and the rest. *)
Fixpoint readDigits (acc cnt : Z) (s : string) : Z * Z * string :=
  match s with
  | String c r => if isDigit c then readDigits (10 * acc + digitVal c) (cnt + 1) r
                  else (acc, cnt, s)
  | "" => (acc, cnt, s)
  end.

(** An optional ExponentPart: [e] or [E], an optional sign, at least one digit.
    Returns the exponent and the rest; when the part is incomplete nothing is
    consumed. *)
Definition readExponent (s : string) : Z * string :=
  match s with
  | String c r =>
      if eqci c "e" then
        let '(neg, r1) :=
          match r with
          | String "+" r' => (false, r')
          | String "-" r' => (true, r')
          | _ => (false, r)
          end in
        let '(v, n, r2) := readDigits 0 0 r1 in
        if (n =? 0)%Z then (0%Z, s) else ((if neg then - v else v)%Z, r2)
      else (0%Z, s)
  | "" => (0%Z, s)
  end.

(** The longest prefix of [s] that is a StrDecimalLiteral, with its Number
    value and the rest of [s]. *)
Definition strDecimalPrefix (s : string) : option (float * string) :=
  let '(neg, r0) :=
    match s with
    | String "+" r => (false, r)
    | String "-" r => (true, r)
    | _ => (false, s)
    end in
  match stripPrefix "Infinity" r0 with
  | Some rest => Some (if neg then PrimFloat.neg_infinity else PrimFloat.infinity, rest)
  | None =>
      let '(ip, ni, r1) := readDigits 0 0 r0 in
      match r1 with
      | String "." r1' =>
          let '(mant, nall, r2) := readDigits ip ni r1' in
          if (nall =? 0)%Z then None
          else
            let '(ex, r3) := readExponent r2 in
            Some (dec2float neg mant (ex - (nall - ni)), r3)
      | _ =>
          if (ni =? 0)%Z then None
          else
            let '(ex, r3) := readExponent r1 in
            Some (dec2float neg ip ex, r3)
      end
  end.

Fixpoint readRadix (radix : Z) (ok : ascii -> bool) (acc : Z) (s : string) : option Z :=
  match s with
  | "" => Some acc
  | String c r => if ok c then readRadix radix ok (radix * acc + hexVal c) r else None
  end.

(** NonDecimalIntegerLiteral: [0x], [0o] or [0b] and at least one digit. *)
Definition nonDecimalLiteral (s : string) : option Z :=
  match s with
  | String "0" (String p r) =>
      if isEmpty r then None
      else if eqci p "x" then readRadix 16 isHex 0 r
      else if eqci p "o" then readRadix 8 (inRange 48 55) 0 r
      else if eqci p "b" then readRadix 2 (inRange 48 49) 0 r
      else None
  | _ => None
  end.

(** StringToNumber: what [Number(s)] is for a string [s]. *)
Definition stringToNumber (s : string) : float :=
  let t := trim s in
  if isEmpty t then PrimFloat.zero
  else
    match strDecimalPrefix t with
    | Some (x, "") => x
    | _ => match nonDecimalLiteral t with
           | Some k => ofZ k
           | None => NaN
           end
    end.

(** The global [parseFloat] on a string. *)
Definition parseFloat (s : string) : float :=
  match strDecimalPrefix (trimStart s) with
  | Some (x, _) => x
  | None => NaN
  end.

(** The values [round3] receives: a Number or a string. *)
Inductive jsval : Type :=
| VNum (x : float)
| VStr (s : string).

(** [Number(v)]. *)
Definition toNumber (v : jsval) : float :=
  match v with
  | VNum x => x
  | VStr s => stringToNumber s
  end.

(** *** [Math.round]: the nearest integer, a tie going towards +Infinity;
    a result of zero keeps the sign of the argument. *)
Definition mathRound (x : float) : float :=
  match Prim2SF x with
  | S754_finite s m e =>
      if (0 <=? e)%Z then x
      else
        let v := if s then Zneg m else Zpos m in
        let k := Z.shiftr (2 * v + Z.shiftl 1 (- e)) (1 - e) in
        if (k =? 0)%Z then (if s then PrimFloat.neg_zero else PrimFloat.zero) else ofZ k
  | _ => x
  end.

(** *** Decimal digits *)

(** The decimal digits of [n >= 0] (["0"] for zero). *)
Definition decDigits (n : Z) : string :=
  NilZero.string_of_uint (N.to_uint (Z.to_N n)).

Fixpoint zeros (n : nat) : string :=
  match n with
  | O => ""
  | S k => String "0" (zeros k)
  end.

(** *** [Number::toString] for the Numbers that reach it from [toFixed]:
    finite, at least 10^21.  [x = m * 2^e] is an integer there; the shortest
    digit string [s] (of [k] digits) with [s * 10^(n-k)] rounding to [x] is
    printed in exponential form, [n - 1] being the exponent. *)
Definition pow10Digits (v : Z) : Z :=
  let est := (Z.log2 v * 30103 / 100000)%Z in
  if (10 ^ (est + 1) <=? v)%Z then (est + 2)%Z else (est + 1)%Z.

Fixpoint shortestFuel (fuel : nat) (k : Z) (x : float) (v n : Z) : Z * Z :=
  let p := (10 ^ (n - k))%Z in
  let lo := (v / p)%Z in
  let hi := (lo + 1)%Z in
  let okLo := PrimFloat.eqb (ofZ (lo * p)) x in
  let okHi := PrimFloat.eqb (ofZ (hi * p)) x in
  let loCloser := (2 * (v - lo * p) <=? p)%Z in
  match fuel with
  | O => (lo, k)
  | S f =>
      if okLo && (loCloser || negb okHi) then (lo, k)
      else if okHi then (hi, k)
      else shortestFuel f (k + 1)%Z x v n
  end.

Definition numberToStringLarge (x : float) (v : Z) : string :=
  let n := pow10Digits v in
  let '(s, k) := shortestFuel 20 1 x v n in
  (* a carry to 10^k moves the decimal point *)
  let '(s, n) := if (10 ^ k <=? s)%Z then ((s / 10)%Z, (n + 1)%Z) else (s, n) in
  let ds := decDigits s in
  let mant := match ds with
              | String c "" => String c ""
              | String c r => String c (String "." r)
              | "" => ""
              end in
  mant ++ "e+" ++ decDigits (n - 1).

(** *** [Number.prototype.toFixed(3)] *)
Definition fixedDigits (n : Z) : string :=
  let m := decDigits n in
  let m := zeros (4 - String.length m) ++ m in
  let k := String.length m in
  takeN (k - 3) m ++ "." ++ dropN (k - 3) m.

Definition toFixed3 (x : float) : string :=
  match Prim2SF x with
  | S754_nan => "NaN"
  | S754_infinity s => if s then "-Infinity" else "Infinity"
  | S754_zero _ => "0.000"
  | S754_finite s m e =>
      let sign := if s then "-" else "" in
      if (0 <=? e)%Z then
        let v := Z.shiftl (Zpos m) e in
        if (1000000000000000000000 <=? v)%Z then (* 10^21 *) sign ++ numberToStringLarge (PrimFloat.abs x) v
        else sign ++ fixedDigits (v * 1000)
      else
        (* below 2^53 < 10^21; the integer nearest to |x| * 1000, the larger
           one on a tie *)
        sign ++ fixedDigits (Z.shiftr (2000 * Zpos m + Z.shiftl 1 (- e)) (1 - e))
  end.

(** *** The replacement [s.replace(/(?:\.0+$|(\.\d+?)0+$)/, '$1')] *)

Fixpoint allZeros (s : string) : bool :=
  match s with
  | "" => true
  | String c r => Ascii.eqb c "0" && allZeros r
  end.

(** [0+$]. *)
Definition zerosToEnd (s : string) : bool := negb (isEmpty s) && allZeros s.

(** [\d+?0+$] at the text after the point: the digits kept by the group. *)
Fixpoint lazyDigitsThenZeros (s : string) : option string :=
  match s with
  | String c r =>
      if isDigit c then
        if zerosToEnd r then Some (String c "")
        else option_map (String c) (lazyDigitsThenZeros r)
      else None
  | "" => None
  end.

Fixpoint stripTrailingZeros (s : string) : string :=
  match s with
  | "" => ""
  | String c r =>
      if Ascii.eqb c "." then
        if zerosToEnd r then ""
        else match lazyDigitsThenZeros r with
             | Some ds => String "." ds
             | None => String c (stripTrailingZeros r)
             end
      else String c (stripTrailingZeros r)
  end.

(** ** [round3] (lines 21-26) *)

Definition f1000 : float := 1000%float.

Definition round3 (v : jsval) : option string :=
  let n := toNumber v in
  if negb (isFinite n) then None
  else
    let s := toFixed3 (fdiv (mathRound (fmul n f1000)) f1000) in
    Some (stripTrailingZeros s).


(** ** The regular expressions of the script

    In the comments below [Q] stands for the double-quote character. *)

Definition quoteChar : ascii := "034"%char.
Definition aposChar : ascii := "039"%char.

(** [https?:\/\/] at the head of [s]: the rest of [s] after it.  The optional
    [s] is tried first.  [ci] is the [i] flag. *)
Definition matchProtocol (ci : bool) (s : string) : option string :=
  match (if ci then stripPrefixCi "http" s else stripPrefix "http" s) with
  | Some r =>
      let withS :=
        match r with
        | String c r' =>
            if (if ci then eqci c "s" else Ascii.eqb c "s") then stripPrefix "://" r'
            else None
        | "" => None
        end in
      match withS with
      | Some rest => Some rest
      | None => stripPrefix "://" r
      end
  | None => None
  end.

(** [/^https?:\/\//i.test(s)]. *)
Definition testProtocolCi (s : string) : bool :=
  match matchProtocol true s with Some _ => true | None => false end.

(** [s.replace(/^https?:\/\//i, '')] with [ci], and
    [s.replace(/^(https?:\/\/)?/, '')] without: the optional group of the
    second form matches the empty string when there is no protocol, so both
    remove a protocol at the head and nothing else. *)
Definition removeProtocol (ci : bool) (s : string) : string :=
  match matchProtocol ci s with Some r => r | None => s end.

(** [s.replace(/^www\./i, '')]. *)
Definition removeWww (s : string) : string :=
  match stripPrefixCi "www." s with Some r => r | None => s end.

(** [[^\s'Q]*], greedy: the run matched at the head of [s]. *)
Fixpoint urlTail (s : string) : string :=
  match s with
  | "" => ""
  | String c r =>
      if startsWs s || Ascii.eqb c aposChar || Ascii.eqb c quoteChar then ""
      else String c (urlTail r)
  end.

(** [wplace\.live[^\s'Q]*] at the head of [s]: the text matched. *)
Definition matchDomainTail (s : string) : option string :=
  match stripPrefixCi "wplace.live" s with
  | Some r => Some (takeN 11 s ++ urlTail r)
  | None => None
  end.

(** [(www\.)?wplace\.live[^\s'Q]*] at the head of [s]. *)
Definition matchWwwDomainTail (s : string) : option string :=
  let withWww :=
    match stripPrefixCi "www." s with
    | Some r => option_map (append (takeN 4 s)) (matchDomainTail r)
    | None => None
    end in
  match withWww with
  | Some m => Some m
  | None => matchDomainTail s
  end.

(** The whole expression at the head of [s]. *)
Definition matchUrlAt (s : string) : option string :=
  let withProtocol :=
    match matchProtocol true s with
    | Some r => option_map (append (takeN (String.length s - String.length r) s))
                           (matchWwwDomainTail r)
    | None => None
    end in
  match withProtocol with
  | Some m => Some m
  | None => matchWwwDomainTail s
  end.

(** [m[0]] of [s.match(/(https?:\/\/)?(www\.)?wplace\.live[^\s'Q]*/i)]: the
    match at the leftmost position that has one. *)
Fixpoint reUrlMatch (s : string) : option string :=
  match matchUrlAt s with
  | Some m => Some m
  | None => match s with
            | "" => None
            | String _ r => reUrlMatch r
            end
  end.

(** [[^&\s]] at the head of [s]. *)
Definition paramChar (s : string) : bool :=
  match s with
  | "" => false
  | String c _ => negb (Ascii.eqb c "&") && negb (startsWs s)
  end.

(** [[^&\s]*], greedy. *)
Fixpoint paramRun (s : string) : string :=
  match s with
  | "" => ""
  | String c r => if paramChar s then String c (paramRun r) else ""
  end.

(** A line terminator (LF, CR, U+2028, U+2029) at the head of [s]: what [.]
    does not match. *)
Definition startsLineTerminator (s : string) : bool :=
  match s with
  | String ("010" | "013")%char _ => true
  | String "226"%char (String "128"%char (String ("168" | "169")%char _)) => true
  | _ => false
  end.

(** [lng=([^&\s]+)] at the head of [s]: the group. *)
Definition matchLngHere (s : string) : option string :=
  match stripPrefixCi "lng=" s with
  | Some r => let g := paramRun r in if isEmpty g then None else Some g
  | None => None
  end.

(** [.*?lng=([^&\s]+)]: the lazy star gives way one character at a time. *)
Fixpoint matchLazyLng (s : string) : option string :=
  match matchLngHere s with
  | Some g => Some g
  | None => match s with
            | "" => None
            | String _ r => if startsLineTerminator s then None else matchLazyLng r
            end
  end.

(** The first group [([^&\s]+)], having consumed [acc]: the greedy plus
    extends first and gives characters back when the rest fails. *)
Fixpoint matchLatGroup (acc : string) (s : string) : option (string * string) :=
  let stop := option_map (fun g2 => (acc, g2)) (matchLazyLng s) in
  match s with
  | String c r =>
      if paramChar s then
        match matchLatGroup (acc ++ String c "") r with
        | Some res => Some res
        | None => stop
        end
      else stop
  | "" => stop
  end.

Definition matchLatLngAt (s : string) : option (string * string) :=
  match stripPrefixCi "lat=" s with
  | Some (String c r as t) => if paramChar t then matchLatGroup (String c "") r else None
  | _ => None
  end.

(** Groups 1 and 2 of [s.match(/lat=([^&\s]+).*?lng=([^&\s]+)/i)]. *)
Fixpoint matchLatLng (s : string) : option (string * string) :=
  match matchLatLngAt s with
  | Some g => Some g
  | None => match s with
            | "" => None
            | String _ r => matchLatLng r
            end
  end.

Definition matchZoomAt (s : string) : option string :=
  match s with
  | String c r =>
      if Ascii.eqb c "?" || Ascii.eqb c "&" then
        match stripPrefixCi "zoom=" r with
        | Some t => let g := paramRun t in if isEmpty g then None else Some g
        | None => None
        end
      else None
  | "" => None
  end.

(** Group 1 of [s.match(/[?&]zoom=([^&\s]+)/i)]. *)
Fixpoint matchZoom (s : string) : option string :=
  match matchZoomAt s with
  | Some g => Some g
  | None => match s with
            | "" => None
            | String _ r => matchZoom r
            end
  end.

(** [s.replace(/^\/\//, '')]. *)
Definition removeTwoSlashes (s : string) : string :=
  match stripPrefix "//" s with Some r => r | None => s end.

(** [s.replace(/^\/+/, '')]. *)
Fixpoint removeLeadingSlashes (s : string) : string :=
  match s with
  | String "/" r => removeLeadingSlashes r
  | _ => s
  end.

(** [s.indexOf('?')] and [s.slice(qIdx + 1)] together: the text after the
    first question mark, when there is one. *)
Fixpoint afterFirstQuestionMark (s : string) : option string :=
  match s with
  | "" => None
  | String c r => if Ascii.eqb c "?" then Some r else afterFirstQuestionMark r
  end.

(** ** Percent-encoding and UTF-8 (WHATWG URL and Encoding) *)

Definition hexDigit (n : N) : ascii :=
  ascii_of_N (if (n <? 10)%N then 48 + n else 55 + n).

(** A byte as [%XX], with upper-case digits. *)
Definition percentByte (c : ascii) : string :=
  String "%" (String (hexDigit (code c / 16)) (String (hexDigit (code c mod 16)) "")).

Fixpoint percentEncode (inSet : ascii -> bool) (s : string) : string :=
  match s with
  | "" => ""
  | String c r =>
      if inSet c then percentByte c ++ percentEncode inSet r
      else String c (percentEncode inSet r)
  end.

Definition oneOf (cs : string) (c : ascii) : bool :=
  existsb (Ascii.eqb c) (list_ascii_of_string cs).

(** The percent-encode sets.  Every byte of a non-ASCII character is above
    U+007E and so belongs to all of them. *)
Definition c0ControlSet (c : ascii) : bool := (code c <? 32)%N || (126 <? code c)%N.
Definition fragmentSet (c : ascii) : bool :=
  c0ControlSet c || oneOf " <>`" c || Ascii.eqb c quoteChar.
Definition querySet (c : ascii) : bool :=
  c0ControlSet c || oneOf " #<>" c || Ascii.eqb c quoteChar.
Definition specialQuerySet (c : ascii) : bool := querySet c || Ascii.eqb c aposChar.
Definition pathSet (c : ascii) : bool := querySet c || oneOf "?^`{}" c.

(** Percent-decoding of a byte sequence. *)
Fixpoint percentDecode (s : string) : string :=
  match s with
  | "" => ""
  | String "%" (String h (String l r) as t) =>
      if isHex h && isHex l then
        String (ascii_of_N (Z.to_N (16 * hexVal h + hexVal l))) (percentDecode r)
      else String "%" (percentDecode t)
  | String c r => String c (percentDecode r)
  end.

(** U+FFFD, the replacement character. *)
Definition replacementChar : string := bytes [239; 191; 189]%N.

(** What a lead byte announces: how many continuation bytes, and the range
    of the first of them. *)
Definition utf8Lead (b : ascii) : option (nat * N * N) :=
  let n := code b in
  if ((194 <=? n) && (n <=? 223))%N then Some (1%nat, 128%N, 191%N)
  else if (n =? 224)%N then Some (2%nat, 160%N, 191%N)
  else if (n =? 237)%N then Some (2%nat, 128%N, 159%N)
  else if ((225 <=? n) && (n <=? 239))%N then Some (2%nat, 128%N, 191%N)
  else if (n =? 240)%N then Some (3%nat, 144%N, 191%N)
  else if (n =? 244)%N then Some (3%nat, 128%N, 143%N)
  else if ((241 <=? n) && (n <=? 243))%N then Some (3%nat, 128%N, 191%N)
  else None.

(** UTF-8 decode without BOM, on the representation of strings by their
    UTF-8 bytes: well-formed sequences are kept, every ill-formed one is
    replaced by U+FFFD as the decoder of the Encoding Standard does.  [need]
    continuation bytes are awaited, the next one within [lo..hi]; [pend] holds
    the bytes of the character read so far. *)
Fixpoint utf8Decode (need : nat) (lo hi : N) (pend : string) (s : string) : string :=
  match s with
  | "" => match need with O => "" | S _ => replacementChar end
  | String b r =>
      let fresh :=
        if (code b <? 128)%N then String b (utf8Decode 0 128 191 "" r)
        else match utf8Lead b with
             | Some (n, l, h) => utf8Decode n l h (String b "") r
             | None => replacementChar ++ utf8Decode 0 128 191 "" r
             end in
      match need with
      | O => fresh
      | S n =>
          if inRange lo hi b then
            match n with
            | O => pend ++ String b (utf8Decode 0 128 191 "" r)
            | S _ => utf8Decode n 128 191 (pend ++ String b "") r
            end
          else replacementChar ++ fresh
      end
  end.

(** ** [application/x-www-form-urlencoded] parsing and [URLSearchParams] *)

Fixpoint splitOn (sep : ascii) (cur : string) (s : string) : list string :=
  match s with
  | "" => [cur]
  | String c r => if Ascii.eqb c sep then cur :: splitOn sep "" r
                  else splitOn sep (cur ++ String c "") r
  end.

(** Name and value of one sequence: split at the first [=]. *)
Fixpoint splitNameValue (name : string) (s : string) : string * string :=
  match s with
  | "" => (name, "")
  | String c r => if Ascii.eqb c "=" then (name, r)
                  else splitNameValue (name ++ String c "") r
  end.

Fixpoint plusToSpace (s : string) : string :=
  match s with
  | "" => ""
  | String c r => String (if Ascii.eqb c "+" then " "%char else c) (plusToSpace r)
  end.

Definition formDecode (s : string) : string :=
  utf8Decode 0 128 191 "" (percentDecode (plusToSpace s)).

Definition parseUrlencoded (s : string) : list (string * string) :=
  map (fun q => let '(n, v) := splitNameValue "" q in (formDecode n, formDecode v))
      (filter (fun q => negb (isEmpty q)) (splitOn "&" "" s)).

(** [new URLSearchParams(init)] for a string: a leading question mark is
    dropped. *)
Definition newURLSearchParams (init : string) : list (string * string) :=
  parseUrlencoded (match init with String "?" r => r | _ => init end).

(** [params.get(name)]: the value of the first pair of that name. *)
Fixpoint paramGet (params : list (string * string)) (name : string) : option string :=
  match params with
  | [] => None
  | (n, v) :: r => if String.eqb n name then Some v else paramGet r name
  end.

(** [params.has(name)]. *)
Definition paramHas (params : list (string * string)) (name : string) : bool :=
  match paramGet params name with Some _ => true | None => false end.

(** ** URL records and the basic URL parser (WHATWG URL)

    The parser runs without a base URL and without a state override, as
    [new URL(string)] does.  The state machine of the standard is written as
    one function per group of states; a state that steps its pointer back
    hands the same text to the next function.  User name and password are
    parsed but not kept, no getter used by the script reads them.

    The script builds its URL strings from a match of its regular expression,
    so a scheme can only begin with [h] or [w]: the states of the [file]
    scheme are not modelled and [parseURL] answers [None] for it. *)

Inductive urlPath : Type :=
| OpaquePath (p : string)
| PathSegments (l : list string).

Record URL : Type := mkURL {
  urlScheme : string;
  urlHost : option string;
  urlPort : option Z;
  urlPathOf : urlPath;
  urlQuery : option string;
  urlFragment : option string
}.

Definition isC0OrSpace (c : ascii) : bool := (code c <=? 32)%N.

Fixpoint stripLeadingC0 (s : string) : string :=
  match s with
  | String c r => if isC0OrSpace c then stripLeadingC0 r else s
  | "" => ""
  end.

Fixpoint stripTrailingC0 (s : string) : string :=
  match s with
  | "" => ""
  | String c r =>
      let r' := stripTrailingC0 r in
      if isC0OrSpace c && isEmpty r' then "" else String c r'
  end.

Definition isTabOrNewline (c : ascii) : bool :=
  match c with
  | ("009" | "010" | "013")%char => true
  | _ => false
  end.

Fixpoint removeTabNewline (s : string) : string :=
  match s with
  | "" => ""
  | String c r => if isTabOrNewline c then removeTabNewline r
                  else String c (removeTabNewline r)
  end.

Definition urlPreprocess (s : string) : string :=
  removeTabNewline (stripTrailingC0 (stripLeadingC0 s)).

(** Scheme state: the rest of the scheme (lower-cased) and the text after the
    colon. *)
Fixpoint schemeState (s : string) : option (string * string) :=
  match s with
  | String c r =>
      if isAlnum c || oneOf "+-." c then
        match schemeState r with
        | Some (b, t) => Some (String (toLower c) b, t)
        | None => None
        end
      else if Ascii.eqb c ":" then Some ("", r)
      else None
  | "" => None
  end.

(** Scheme start state and scheme state; without a base URL the no-scheme
    state is a failure. *)
Definition parseScheme (s : string) : option (string * string) :=
  match s with
  | String c r =>
      if isAlpha c then
        match schemeState r with
        | Some (b, t) => Some (String (toLower c) b, t)
        | None => None
        end
      else None
  | "" => None
  end.

Definition defaultPort (scheme : string) : option Z :=
  if String.eqb scheme "ftp" then Some 21%Z
  else if String.eqb scheme "http" then Some 80%Z
  else if String.eqb scheme "https" then Some 443%Z
  else if String.eqb scheme "ws" then Some 80%Z
  else if String.eqb scheme "wss" then Some 443%Z
  else None.

Definition isSpecial (scheme : string) : bool :=
  String.eqb scheme "file" ||
  match defaultPort scheme with Some _ => true | None => false end.

(** [span stop s]: the text before the first character satisfying [stop],
    and the text from that character on. *)
Fixpoint span (stop : ascii -> bool) (s : string) : string * string :=
  match s with
  | "" => ("", "")
  | String c r =>
      if stop c then ("", s)
      else let '(a, b) := span stop r in (String c a, b)
  end.

(** The characters that end the authority, the host and the port. *)
Definition endsAuthority (special : bool) (c : ascii) : bool :=
  oneOf "/?#" c || (special && Ascii.eqb c "\").

(** The text after the last [@] of [s], when there is one. *)
Fixpoint afterLastAt (s : string) : option string :=
  match s with
  | "" => None
  | String c r =>
      match afterLastAt r with
      | Some t => Some t
      | None => if Ascii.eqb c "@" then Some r else None
      end
  end.

(** Host state: the host text before the first colon outside brackets, and
    the text after that colon when there is one. *)
Fixpoint splitHostPort (inBrackets : bool) (s : string) : string * option string :=
  match s with
  | "" => ("", None)
  | String c r =>
      if Ascii.eqb c ":" && negb inBrackets then ("", Some r)
      else
        let inB := if Ascii.eqb c "[" then true
                   else if Ascii.eqb c "]" then false else inBrackets in
        let '(h, p) := splitHostPort inB r in (String c h, p)
  end.

Fixpoint allDigits (s : string) : bool :=
  match s with
  | "" => true
  | String c r => isDigit c && allDigits r
  end.

(** Port state on the text between the colon and the end of the authority:
    [None] is a failure, [Some None] no port or the default one. *)
Definition parsePort (scheme : string) (s : string) : option (option Z) :=
  if negb (allDigits s) then None
  else if isEmpty s then Some None
  else
    let '(p, _, _) := readDigits 0 0 s in
    if (65535 <? p)%Z then None
    else match defaultPort scheme with
         | Some d => if (d =? p)%Z then Some None else Some (Some p)
         | None => Some (Some p)
         end.

Definition isSingleDot (seg : string) : bool :=
  let l := lowerStr seg in String.eqb l "." || String.eqb l "%2e".

Definition isDoubleDot (seg : string) : bool :=
  let l := lowerStr seg in
  String.eqb l ".." || String.eqb l ".%2e" || String.eqb l "%2e." || String.eqb l "%2e%2e".

(** Path state, one segment at a time: [seg] is the percent-encoded buffer
    and [last] tells that it was ended by the end of the path rather than by a
    slash. *)
Definition addSegment (path : list string) (seg : string) (last : bool) : list string :=
  if isDoubleDot seg then
    let p := removelast path in
    if last then p ++ [""] else p
  else if isSingleDot seg then
    if last then path ++ [""] else path
  else path ++ [seg].

Fixpoint pathState (special : bool) (path : list string) (buf : string) (s : string)
  : list string :=
  match s with
  | "" => addSegment path (percentEncode pathSet buf) true
  | String c r =>
      if Ascii.eqb c "/" || (special && Ascii.eqb c "\") then
        pathState special (addSegment path (percentEncode pathSet buf) false) "" r
      else pathState special path (buf ++ String c "") r
  end.

(** Query state and fragment state on the text that follows the path:
    it is empty or begins with [?] or [#]. *)
Definition parseQueryFragment (special : bool) (s : string)
  : option string * option string :=
  let qset := if special then specialQuerySet else querySet in
  match s with
  | String "?" r =>
      let '(q, f) := span (Ascii.eqb "#") r in
      (Some (percentEncode qset q),
       match f with
       | String _ f' => Some (percentEncode fragmentSet f')
       | "" => None
       end)
  | String "#" r => (None, Some (percentEncode fragmentSet r))
  | _ => (None, None)
  end.

Definition isQueryOrFragmentStart (c : ascii) : bool := oneOf "?#" c.

Fixpoint skipSlashes (s : string) : string :=
  match s with
  | String c r => if oneOf "/\" c then skipSlashes r else s
  | "" => ""
  end.

Section UrlParser.

(** The host parser of the standard (domain to ASCII by IDNA, IPv4 and IPv6
    literals, opaque hosts) is a parameter of the model: [parseHost isOpaque
    input] is the serialized host, or [None] for a failure. *)
Variable parseHost : bool -> string -> option string.

(** Authority state, host state, port state, path start state and path state
    on the text that follows the slashes. *)
Definition parseAuthorityOn (scheme : string) (special : bool) (s : string) : option URL :=
  let '(auth, rest) := span (endsAuthority special) s in
  let hostPort :=
    match afterLastAt auth with
    | Some t => if isEmpty t then None else Some t
    | None => Some auth
    end in
  match hostPort with
  | None => None
  | Some hp =>
      let '(h, p) := splitHostPort false hp in
      if isEmpty h && (special || match p with Some _ => true | None => false end) then None
      else
        match parseHost (negb special) h with
        | None => None
        | Some host =>
            match (match p with Some pt => parsePort scheme pt | None => Some None end) with
            | None => None
            | Some port =>
                let '(pathText, qf) := span isQueryOrFragmentStart rest in
                let path :=
                  match pathText with
                  | String _ t => pathState special [] "" t
                  | "" => if special then pathState special [] "" "" else []
                  end in
                let '(q, f) := parseQueryFragment special qf in
                Some (mkURL scheme (Some host) port (PathSegments path) q f)
            end
        end
  end.

Definition parseURL (input : string) : option URL :=
  match parseScheme (urlPreprocess input) with
  | None => None
  | Some (scheme, rest) =>
      if String.eqb scheme "file" then None
      else if isSpecial scheme then
        parseAuthorityOn scheme true (skipSlashes rest)
      else
        match rest with
        | String "/" (String "/" r) => parseAuthorityOn scheme false r
        | String "/" r =>
            let '(pathText, qf) := span isQueryOrFragmentStart r in
            let '(q, f) := parseQueryFragment false qf in
            Some (mkURL scheme None None
                        (PathSegments (pathState false [] "" pathText)) q f)
        | _ =>
            let '(pathText, qf) := span isQueryOrFragmentStart rest in
            let '(q, f) := parseQueryFragment false qf in
            Some (mkURL scheme None None
                        (OpaquePath (percentEncode c0ControlSet pathText)) q f)
        end
  end.

End UrlParser.

(** The getters read by the script. *)

Definition searchParams (u : URL) : list (string * string) :=
  match urlQuery u with
  | Some q => parseUrlencoded q
  | None => []
  end.

Definition hostOf (u : URL) : string :=
  match urlHost u with
  | None => ""
  | Some h => match urlPort u with
              | None => h
              | Some p => h ++ ":" ++ decDigits p
              end
  end.

Definition pathnameOf (u : URL) : string :=
  match urlPathOf u with
  | OpaquePath p => p
  | PathSegments l => String.concat "" (map (append "/") l)
  end.

Definition searchOf (u : URL) : string :=
  match urlQuery u with
  | Some (String _ _ as q) => String "?" q
  | _ => ""
  end.

Definition hashOf (u : URL) : string :=
  match urlFragment u with
  | Some (String _ _ as f) => String "#" f
  | _ => ""
  end.

(** ** The script *)

(** A template literal prints [null] for a missing string. *)
Definition showNullable (o : option string) : string :=
  match o with Some s => s | None => "null" end.

(** [x || ''] on a nullable string. *)
Definition showEmpty (o : option string) : string :=
  match o with Some s => s | None => "" end.

(** The template [`wplace.live/?lat=${latS}&lng=${lngS}${zoomPart}`]. *)
Definition linkTemplate (latS lngS : option string) (zoomPart : string) : string :=
  "wplace.live/?lat=" ++ showNullable latS ++ "&lng=" ++ showNullable lngS ++ zoomPart.

(** [parseFloat(params.get(name))]; a missing parameter is [null], which
    reads as NaN. *)
Definition parseFloatParam (params : list (string * string)) (name : string) : float :=
  parseFloat (showNullable (paramGet params name)).

(** [params.has('zoom') ? params.get('zoom') : null], then
    [zoom ? `&zoom=${show zoom}` : '']. *)
Definition zoomPartWith (show : string -> string) (zoom : option string) : string :=
  match zoom with
  | Some z => if truthy z then "&zoom=" ++ show z else ""
  | None => ""
  end.

(** Lines 42-49: the body of the [try] block once the URL is parsed. *)
Definition formatStructured (params : list (string * string)) : option string :=
  if negb (paramHas params "lat") || negb (paramHas params "lng") then None
  else
    let lat := parseFloatParam params "lat" in
    let lng := parseFloatParam params "lng" in
    if isNaN lat || isNaN lng then None
    else
      let latS := round3 (VNum lat) in
      let lngS := round3 (VNum lng) in
      let zoom := paramGet params "zoom" in
      Some (linkTemplate latS lngS (zoomPartWith (fun z => z) zoom)).

(** Lines 58-66: the same on the parameters read by hand; the zoom goes
    through [round3]. *)
Definition formatFallback (sp : list (string * string)) : option string :=
  if paramHas sp "lat" && paramHas sp "lng" then
    let lat := parseFloatParam sp "lat" in
    let lng := parseFloatParam sp "lng" in
    if negb (isNaN lat) && negb (isNaN lng) then
      let latS := round3 (VNum lat) in
      let lngS := round3 (VNum lng) in
      let zoom := paramGet sp "zoom" in
      Some (linkTemplate latS lngS
              (zoomPartWith (fun z => showNullable (round3 (VStr z))) zoom))
    else None
  else None.

(** Lines 52-69: the [catch] block. *)
Definition extractFallback (matched : string) : option string :=
  let raw := removeWww (removeProtocol true matched) in
  match afterFirstQuestionMark raw with
  | Some qs => formatFallback (newURLSearchParams qs)
  | None => None
  end.

(** The argument of [new URL] on line 40. *)
Definition structuredUrlString (matched : string) : string :=
  (if testProtocolCi matched then "" else "https://") ++ removeProtocol false matched.

(** [extractWplaceUrl] (lines 205-210). *)
Definition extractWplaceUrl (text : string) : option string :=
  if negb (truthy text) then None else reUrlMatch text.

(** The texts [findCandidateString] (lines 212-236) looks at, in its order:
    [el.innerText || el.textContent || ''] of the button and of its ancestors,
    then the text of each candidate under the parent, then the text of each
    candidate of the document. *)
Record pageTexts : Type := mkPageTexts {
  ancestorTexts : list string;
  containerTexts : list string;
  documentTexts : list string
}.

Fixpoint firstWplaceUrl (texts : list string) : option string :=
  match texts with
  | [] => None
  | t :: r => match extractWplaceUrl t with
              | Some u => if truthy u then Some u else firstWplaceUrl r
              | None => firstWplaceUrl r
              end
  end.

Definition findCandidateString (p : pageTexts) : option string :=
  match firstWplaceUrl (firstn 4 (ancestorTexts p)) with
  | Some u => Some u
  | None =>
      match firstWplaceUrl (containerTexts p) with
      | Some u => Some u
      | None => firstWplaceUrl (documentTexts p)
      end
  end.

(** What the click handler (lines 307-321) does: which of its three calls of
    [copyToClipboardAndToast] it makes. *)
Inductive clickOutcome : Type :=
| NoCandidate
| NoNormalized
| CopyLink (normalized : string).

(** The text handed to [copyToClipboardAndToast]. *)
Definition copiedText (o : clickOutcome) : string :=
  match o with
  | NoCandidate | NoNormalized => "No wplace link found"
  | CopyLink s => s
  end.

Section Script.

Variable parseHost : bool -> string -> option string.

(** [extractAndFormatUrl] (lines 29-73).  [new URL] throwing is
    [parseURL] answering [None]. *)
Definition extractAndFormatUrl (text : string) : option string :=
  if negb (truthy text) then None
  else
    match reUrlMatch text with
    | None => None
    | Some matched =>
        match parseURL parseHost (structuredUrlString matched) with
        | Some url => formatStructured (searchParams url)
        | None => extractFallback matched
        end
    end.

(** The parameters that [extractAndFormatUrl] reads on [matched]: those of
    the parsed URL, or, when [new URL] throws, those after the first question
    mark, if there is one. *)
Definition extractParams (matched : string) : option (list (string * string)) :=
  match parseURL parseHost (structuredUrlString matched) with
  | Some url => Some (searchParams url)
  | None =>
      option_map newURLSearchParams
        (afterFirstQuestionMark (removeWww (removeProtocol true matched)))
  end.

(** The guards of lines 45-47 and 61-63: [lat] or [lng] is missing, or
    [parseFloat] makes NaN of it. *)
Definition coordinateMissing (params : list (string * string)) : bool :=
  negb (paramHas params "lat") || negb (paramHas params "lng")
  || isNaN (parseFloatParam params "lat") || isNaN (parseFloatParam params "lng").

(** [normalizeAndRoundUrl] (lines 238-265). *)
Definition normalizeAndRoundUrl (raw : string) : option string :=
  if negb (truthy raw) then None
  else
    let hasProtocol := testProtocolCi raw in
    let urlStr := if hasProtocol then raw else "https://" ++ raw in
    match parseURL parseHost urlStr with
    | Some u =>
        let params := searchParams u in
        if paramHas params "lat" && paramHas params "lng" then
          let lat := round3 (VStr (showNullable (paramGet params "lat"))) in
          let lng := round3 (VStr (showNullable (paramGet params "lng"))) in
          let zoom := paramGet params "zoom" in
          Some (linkTemplate lat lng (zoomPartWith (fun z => z) zoom))
        else
          Some (removeLeadingSlashes (hostOf u ++ pathnameOf u ++ searchOf u ++ hashOf u))
    | None =>
        let s := removeProtocol true raw in
        match matchLatLng s with
        | Some (g1, g2) =>
            let lat := round3 (VStr g1) in
            let lng := round3 (VStr g2) in
            let zoom := matchZoom s in
            Some (linkTemplate lat lng (zoomPartWith (fun z => z) zoom))
        | None => Some (removeTwoSlashes s)
        end
    end.

Definition onClick (p : pageTexts) : clickOutcome :=
  match findCandidateString p with
  | None => NoCandidate
  | Some raw =>
      match normalizeAndRoundUrl raw with
      | Some normalized => if truthy normalized then CopyLink normalized else NoNormalized
      | None => NoNormalized
      end
  end.

End Script.

(** A host parser for the witnesses: names made of ASCII letters and dots,
    which the standard's host parser lower-cases when the scheme is special;
    anything else is refused. *)
Definition plainHost (isOpaque : bool) (s : string) : option string :=
  if isEmpty s then None
  else if forallb (fun c => isAlpha c || Ascii.eqb c ".") (list_ascii_of_string s)
  then Some (if isOpaque then s else lowerStr s)
  else None.

(** ** The page: target nodes, the debounce map and the timers (lines 104-124)

    A node is what the script reads and writes of an element: its [value]
    property ([None] when ['value' in el] is false), its attributes, its
    [innerText] property ([None] when the element has none) and its
    [textContent].  The child nodes behind [innerText] and [textContent] are
    not modelled apart from that text.  Assigning to [value] or to [innerText]
    may throw on some elements; the two flags say on which. *)

Record node : Type := mkNode {
  nodeValue : option string;
  nodeAttrs : gmap string string;
  nodeInnerText : option string;
  nodeTextContent : string;
  valueSetterThrows : bool;
  innerTextSetterThrows : bool
}.

(** The page state: the elements by identity, the [WeakMap] from element to
    its pending timer, the pending timers with what their callbacks captured
    (element and text), and the next timer identifier ([setTimeout] returns
    positive integers). *)
Record page : Type := mkPage {
  nodes : gmap nat node;
  debounceMap : gmap nat positive;
  timers : gmap positive (nat * string);
  nextTimer : positive
}.

(** [a || b] on nullable strings. *)
Definition orElse (a : option string) (b : option string) : option string :=
  match a with
  | Some s => if truthy s then a else b
  | None => b
  end.

(** [(el.value || el.getAttribute('value') || el.innerText || el.textContent
    || '').trim()] (line 108). *)
Definition currentContent (n : node) : string :=
  trim (showEmpty (orElse (nodeValue n)
                  (orElse (nodeAttrs n !! "value")
                  (orElse (nodeInnerText n)
                  (orElse (Some (nodeTextContent n)) None))))).

Definition setValue (n : node) (s : string) : node :=
  mkNode (Some s) (nodeAttrs n) (nodeInnerText n) (nodeTextContent n)
         (valueSetterThrows n) (innerTextSetterThrows n).

(** On an element that has the property, [innerText] replaces the text of
    the element; on another object the assignment only creates the property. *)
Definition setInnerText (n : node) (s : string) : node :=
  mkNode (nodeValue n) (nodeAttrs n) (Some s)
         (match nodeInnerText n with Some _ => s | None => nodeTextContent n end)
         (valueSetterThrows n) (innerTextSetterThrows n).

Definition setTextContent (n : node) (s : string) : node :=
  mkNode (nodeValue n) (nodeAttrs n)
         (match nodeInnerText n with Some _ => Some s | None => None end) s
         (valueSetterThrows n) (innerTextSetterThrows n).

Definition setAttribute (n : node) (name value : string) : node :=
  mkNode (nodeValue n) (<[name := value]> (nodeAttrs n)) (nodeInnerText n)
         (nodeTextContent n) (valueSetterThrows n) (innerTextSetterThrows n).

(** The text of the [title] attribute, byte for byte as in the source. *)
Definition titleFor (formatted : string) : string := "formatted â†’ " ++ formatted.

(** The [try] block of the timer callback (lines 114-117): [None] when an
    assignment threw. *)
Definition tryWrite (n : node) (formatted : string) : option node :=
  let written :=
    match nodeValue n with
    | Some _ => if valueSetterThrows n then None else Some (setValue n formatted)
    | None =>
        match nodeInnerText n with
        | Some _ => if innerTextSetterThrows n then None
                    else Some (setInnerText n formatted)
        | None => Some (setTextContent n formatted)
        end
    end in
  option_map (fun n' => setAttribute n' "title" (titleFor formatted)) written.

(** The callback's write with its [catch] (lines 113-120). *)
Definition writeNode (n : node) (formatted : string) : node :=
  match tryWrite n formatted with
  | Some n' => n'
  | None => if innerTextSetterThrows n then setTextContent n formatted
            else setInnerText n formatted
  end.

(** [applyFormattedIfNeeded(el, formatted)] (lines 106-124).  An identity
    that names no element stands for a null [el]. *)
Definition applyFormattedIfNeeded (el : nat) (formatted : string) (st : page) : page :=
  match nodes st !! el with
  | None => st
  | Some n =>
      if negb (truthy formatted) then st
      else if String.eqb (currentContent n) formatted then st
      else
        let cleared :=
          match debounceMap st !! el with
          | Some lastTimer => delete lastTimer (timers st)
          | None => timers st
          end in
        let t := nextTimer st in
        mkPage (nodes st)
               (<[el := t]> (debounceMap st))
               (<[t := (el, formatted)]> cleared)
               (Pos.succ t)
  end.

(** The timer [t] elapses: its callback runs (lines 112-122). *)
Definition fireTimer (t : positive) (st : page) : page :=
  match timers st !! t with
  | None => st
  | Some (el, formatted) =>
      mkPage (match nodes st !! el with
              | Some n => <[el := writeNode n formatted]> (nodes st)
              | None => nodes st
              end)
             (delete el (debounceMap st))
             (delete t (timers st))
             (nextTimer st)
  end.

(** ** The statements of the specification, in its own words *)

Fixpoint dropTrailingZeros (s : string) : string :=
  match s with
  | "" => ""
  | String c r =>
      let r' := dropTrailingZeros r in
      if isEmpty r' && Ascii.eqb c "0" then "" else String c r'
  end.

(** The canonical text of [k / 1000]: a sign, the integer part, and the
    three decimals with trailing zeros dropped, the point itself too when no
    decimal is left. *)
Definition renderThousandths (k : Z) : string :=
  let ds := decDigits (Z.abs k) in
  let ds := zeros (4 - String.length ds) ++ ds in
  let n := String.length ds in
  let fr := dropTrailingZeros (dropN (n - 3) ds) in
  (if (k <? 0)%Z then "-" else "") ++ takeN (n - 3) ds
    ++ (if isEmpty fr then "" else String "." fr).

(** The Normalized String [domain/?lat=<L>&lng=<G>[&zoom=<Z>]]. *)
Definition normalizedString (L G : string) (zoom : option string) : string :=
  linkTemplate (Some L) (Some G)
               (match zoom with Some z => "&zoom=" ++ z | None => "" end).



(** Characters that pass unchanged through the script's regular expression,
    the query state of the URL parser and the form decoding: printable ASCII
    other than the quotes and [# % & + < >]. *)
Definition querySafeChar (c : ascii) : bool :=
  inRange 33 126 c && negb (oneOf "#%&+<>" c)
  && negb (Ascii.eqb c quoteChar) && negb (Ascii.eqb c aposChar).

Fixpoint querySafe (s : string) : bool :=
  match s with
  | "" => true
  | String c r => querySafeChar c && querySafe r
  end.

(** [s] contains the target-domain token, letters of either case. *)
Fixpoint containsToken (s : string) : bool :=
  match stripPrefixCi "wplace.live" s with
  | Some _ => true
  | None => match s with
            | "" => false
            | String _ r => containsToken r
            end
  end.

(** ** Predicates of the statements and of their proofs *)

Definition printable (c : ascii) : bool := inRange 33 126 c.

(** Printable ASCII other than the two quotes: what the tail of the script's
    expression consumes. *)
Definition tailChar (c : ascii) : bool :=
  printable c && negb (Ascii.eqb c quoteChar) && negb (Ascii.eqb c aposChar).

(** What the query state of a special URL leaves as it is. *)
Definition queryChar (c : ascii) : bool := tailChar c && negb (oneOf "#<>" c).

Fixpoint allChars (p : ascii -> bool) (s : string) : bool :=
  match s with
  | "" => true
  | String c r => p c && allChars p r
  end.

(** The zoom of a Normalized String: its text after the coordinates, the
    parameter it stands for, and the condition under which it passes through
    the extractor unchanged (present zooms are not empty and harmless). *)
Definition zoomSuffix (zoom : option string) : string :=
  match zoom with Some z => "&zoom=" ++ z | None => "" end.

Definition zoomPairs (zoom : option string) : list (string * string) :=
  match zoom with Some z => [("zoom", z)] | None => [] end.

Definition zoomOk (zoom : option string) : bool :=
  match zoom with Some z => truthy z && querySafe z | None => true end.

Ltac ascii_cases c :=
  destruct c as [[|] [|] [|] [|] [|] [|] [|] [|]].

(** A page for the examples: one read-only input (element 0) showing
    [text], with a rewrite to [formatted] pending on timer 1. *)
Definition inputNode (text : string) : node := mkNode (Some text) ∅ None "" false false.

Definition pendingPage (text formatted : string) : page :=
  mkPage {[ 0 := inputNode text ]} {[ 0 := 1%positive ]}
         {[ 1%positive := (0, formatted) ]} 2.

(** What the proofs need of the host parser on the hosts of special URLs:
    a serialized host is not empty and does not begin with a slash (a domain
    holds no forbidden code point, an IPv4 address begins with a digit and an
    IPv6 address with a bracket). *)
Definition hostParserOk (parseHost : bool -> string -> option string) : Prop :=
  forall b h, parseHost false b = Some h ->
              exists c t, h = String c t /\ c <> "/"%char.

(** The schemes that [https?:] leaves to the URL parser. *)
Definition httpScheme (sch : string) : Prop := sch = "http" \/ sch = "https".


(** The thousandths of the coordinates considered below: up to 180 degrees
    either way. *)
Definition maxThousandths : Z := 180000.

(** [round3] on the Number nearest to [k / 1000] prints the canonical text
    of [k / 1000]. *)
Definition rendersThousandths (k : Z) : bool :=
  String.eqb (stripTrailingZeros (toFixed3 (fdiv (ofZ k) f1000))) (renderThousandths k).

(** The integer nearest to [|x| * 1000] (the larger one on a tie), on machine
    integers: for a normal [x] of exponent between -58 and -1 the sum
    [1000 * m + 2^(-e-1)] stays below [2^63]. *)
Definition nearestThousandth (x : float) : option int :=
  if PrimFloat.is_nan x || PrimFloat.is_zero x || PrimFloat.is_infinity x then None
  else
    let (r, se) := PrimFloat.frshiftexp x in
    let m := PrimFloat.normfr_mantissa r in
    if (4503599627370496 <=? m)%uint63 && (m <? 9007199254740992)%uint63
       && (2096 <=? se)%uint63 && (se <=? 2153)%uint63
    then
      let s := (2154 - se)%uint63 in
      Some ((m * 1000 + (1 << (s - 1))) >> s)%uint63
    else None.

(** [rendersThousandths], comparing integers where [nearestThousandth]
    applies. *)
Definition rendersThousandthsFast (k : Z) : bool :=
  let x := fdiv (ofZ k) f1000 in
  match nearestThousandth x with
  | Some n =>
      Uint63.eqb n (Uint63.of_Z (Z.abs k))
      && Bool.eqb (PrimFloat.get_sign x) (k <? 0)%Z
  | None => rendersThousandths k
  end.

(** The integer nearest to [|y|] on machine integers, for a normal [y] of
    exponent between -58 and -1: the magnitude of what [Math.round] gives, a
    tie going to the larger integer for a positive [y] and to the smaller
    magnitude for a negative one. *)
Definition nearestInteger (y : float) : option int :=
  if PrimFloat.is_nan y || PrimFloat.is_zero y || PrimFloat.is_infinity y then None
  else
    let (r, se) := PrimFloat.frshiftexp y in
    let m := PrimFloat.normfr_mantissa r in
    if (4503599627370496 <=? m)%uint63 && (m <? 9007199254740992)%uint63
       && (2096 <=? se)%uint63 && (se <=? 2153)%uint63
    then
      let s := (2154 - se)%uint63 in
      Some (if PrimFloat.get_sign y
            then (m + (1 << (s - 1)) - 1) >> s
            else (m + (1 << (s - 1))) >> s)%uint63
    else None.

(** The canonical text of [k / 1000] is, as a whole, a decimal literal whose
    Number is the one nearest to [k / 1000], which is finite and whose
    thousandfold rounds to [k]. *)
Definition roundsBack (k : Z) : bool :=
  let x := fdiv (ofZ k) f1000 in
  let y := fmul x f1000 in
  match strDecimalPrefix (renderThousandths k) with
  | Some (x', "") => PrimFloat.Leibniz.eqb x' x
  | _ => false
  end
  && isFinite x
  && match nearestInteger y with
     | Some n =>
         Uint63.eqb n (Uint63.of_Z (Z.abs k))
         && Bool.eqb (PrimFloat.get_sign y) (k <? 0)%Z
         && negb (k =? 0)%Z
     | None => PrimFloat.Leibniz.eqb (mathRound y) (ofZ k)
     end.

(** [p] holds on the [n] integers from [k] on. *)
Fixpoint allFrom (p : Z -> bool) (n : nat) (k : Z) : bool :=
  match n with
  | O => true
  | S m => p k && allFrom p m (k + 1)
  end.

(** ** Predicates of the further properties *)

(** Neither a one-byte white-space character nor a quote. *)
Definition notBlankOrQuote (c : ascii) : bool :=
  match c with
  | ("009" | "010" | "011" | "012" | "013" | " " | "034" | "039")%char => false
  | _ => true
  end.

(** A link in lower case: [http://] or [https://], [www.] or not, the domain
    and what follows it. *)
Definition lowercaseLink (secure www : bool) (tail : string) : string :=
  (if secure then "https://" else "http://")
  ++ (if www then "www." else "") ++ "wplace.live" ++ tail.

(** [s] is empty or begins with [/], [?] or [#]. *)
Definition startsPathQueryOrFragment (s : string) : bool :=
  match s with
  | "" => true
  | String c _ => oneOf "/?#" c
  end.

(** ** The sync engine around [applyFormattedIfNeeded] (lines 75-153)

    The tree around the elements: the parent of a node, the child nodes of a
    node in order, and the elements of the document in tree order.  A child
    identity that names no node of the page reads as a node without text. *)
Record layout : Type := mkLayout {
  parentNode : gmap nat nat;
  childNodes : gmap nat (list nat);
  documentElements : list nat
}.

(** [s.indexOf(needle) !== -1]. *)
Fixpoint indexOfFound (needle s : string) : bool :=
  match stripPrefix needle s with
  | Some _ => true
  | None => match s with
            | "" => false
            | String _ r => indexOfFound needle r
            end
  end.

(** [isTargetInput] (lines 97-102) on an element. *)
Definition isTargetInput (n : node) : bool :=
  match nodeAttrs n !! "readonly" with
  | None => false
  | Some _ =>
      indexOfFound "text-base-content/80"
                   (showEmpty (orElse (nodeAttrs n !! "class") None))
  end.

(** [(node.textContent || '').trim()] of a child node (lines 83 and 89). *)
Definition childText (st : page) (c : nat) : string :=
  trim (match nodes st !! c with
        | Some n => nodeTextContent n
        | None => ""
        end).

(** The loops of lines 82-85 and 88-91: the first child whose trimmed text
    is not empty and mentions the domain. *)
Fixpoint firstLinkText (st : page) (children : list nat) : option string :=
  match children with
  | [] => None
  | c :: r =>
      let txt := childText st c in
      if truthy txt && containsToken txt then Some txt else firstLinkText st r
  end.

Definition childrenOf (lay : layout) (p : nat) : list nat :=
  match childNodes lay !! p with Some l => l | None => [] end.

(** [findRenderedText] (lines 76-94). *)
Definition findRenderedText (lay : layout) (st : page) (el : nat) : string :=
  match nodes st !! el with
  | None => ""
  | Some n =>
      let cand := currentContent n in
      if truthy cand then cand
      else
        match parentNode lay !! el with
        | None => ""
        | Some parent =>
            match firstLinkText st (childrenOf lay parent) with
            | Some txt => txt
            | None =>
                match parentNode lay !! parent with
                | None => ""
                | Some grand =>
                    match firstLinkText st (childrenOf lay grand) with
                    | Some txt => txt
                    | None => ""
                    end
                end
            end
        end
  end.

(** [Array.from(document.querySelectorAll('[readonly]')).filter(isTargetInput)]
    (lines 135 and 151). *)
Definition hasReadonly (st : page) (el : nat) : bool :=
  match nodes st !! el with
  | Some n => match nodeAttrs n !! "readonly" with Some _ => true | None => false end
  | None => false
  end.

Definition isTarget (st : page) (el : nat) : bool :=
  match nodes st !! el with
  | Some n => isTargetInput n
  | None => false
  end.

Definition targetInputs (lay : layout) (st : page) : list nat :=
  List.filter (isTarget st) (List.filter (hasReadonly st) (documentElements lay)).

(** The listeners installed by the script: the elements flagged
    [__wplace_bound], and the listeners in the order of their registration,
    each with its element and its event type (the handler of a listener is
    the closure that processes the element it was registered on). *)
Record bindings : Type := mkBindings {
  boundElements : gset nat;
  listeners : list (nat * string)
}.

(** [bindEventsTo] (lines 140-148). *)
Definition bindEventsTo (el : nat) (b : bindings) : bindings :=
  if bool_decide (el ∈ boundElements b) then b
  else mkBindings ({[ el ]} ∪ boundElements b)
                  (listeners b ++ [(el, "input"); (el, "change"); (el, "blur")]).

(** [bindExistingAndFuture] (lines 150-153). *)
Definition bindExistingAndFuture (lay : layout) (st : page) (b : bindings) : bindings :=
  fold_left (fun b el => bindEventsTo el b) (targetInputs lay st) b.

Section SyncEngine.

Variable parseHost : bool -> string -> option string.

(** [processElement] (lines 126-131). *)
Definition processElement (lay : layout) (el : nat) (st : page) : page :=
  match nodes st !! el with
  | None => st
  | Some _ =>
      match extractAndFormatUrl parseHost (findRenderedText lay st el) with
      | Some formatted =>
          if truthy formatted then applyFormattedIfNeeded el formatted st else st
      | None => st
      end
  end.

(** [scanAndProcess] (lines 133-138): the candidates are listed first, then
    processed in order. *)
Definition scanAndProcess (lay : layout) (st : page) : page :=
  fold_left (fun s el => processElement lay el s) (targetInputs lay st) st.

(** The listeners of [el] for an event of type [type] run, in the order of
    their registration. *)
Definition runListeners (lay : layout) (b : bindings) (el : nat) (type : string)
    (st : page) : page :=
  fold_left (fun s l => if bool_decide (l = (el, type)) then processElement lay el s else s)
            (listeners b) st.

End SyncEngine.

(** The pending rewrites are consistent: the debounce map and the timers
    name each other, and the timer identifiers in use are below the next
    one. *)
Definition pendingConsistent (st : page) : Prop :=
  (forall el t, debounceMap st !! el = Some t -> exists f, timers st !! t = Some (el, f))
  /\ (forall t el f, timers st !! t = Some (el, f) -> debounceMap st !! el = Some t)
  /\ (forall t, is_Some (timers st !! t) -> (t < nextTimer st)%positive).


(** ** The retry loop of the button replacement (lines 326-336) *)

Definition maxAttempts : nat := 8.

(** [tryInstallLater], its timers taken one after the other: [found k] tells
    whether [installReplacement] finds the Copy button at the [k]-th attempt.
    The result is the number of attempts made, the delays waited between
    them (in milliseconds) and whether the handler was installed.  [fuel]
    bounds the number of timers run. *)
Fixpoint tryInstallLater (fuel : nat) (found : nat -> bool) (attempts : nat)
    : nat * list nat * bool :=
  match fuel with
  | O => (attempts, [], false)
  | S fuel' =>
      let attempts := S attempts in
      if found attempts then (attempts, [], true)
      else if (attempts <? maxAttempts)%nat then
        let '(a, delays, ok) := tryInstallLater fuel' found attempts in
        (a, (400 + attempts * 150)%nat :: delays, ok)
      else (attempts, [], false)
  end.

(** The listeners are installed once: no listener is registered twice, and
    the flagged elements are those that have the three listeners. *)
Definition boundOnce (b : bindings) : Prop :=
  NoDup (listeners b)
  /\ forall el type,
       (el, type) ∈ listeners b
       <-> el ∈ boundElements b /\ type ∈ ["input"; "change"; "blur"].

(** ** Pages for the examples of the sync engine *)

(** A target input showing [text]. *)
Definition targetNode (text : string) : node :=
  mkNode (Some text) {[ "readonly" := ""; "class" := "input text-base-content/80" ]}
         None "" false false.

(** One target input (element 0), nothing pending. *)
Definition targetPage (text : string) : page :=
  mkPage {[ 0 := targetNode text ]} ∅ ∅ 1.

Definition targetLayout : layout := mkLayout ∅ ∅ [0].

(** An element without a [value] property that carries a [value] attribute,
    with a rewrite to [formatted] pending on timer 1. *)
Definition attributePage (a formatted : string) : page :=
  mkPage {[ 0 := mkNode None {[ "value" := a ]} None "" false false ]}
         {[ 0 := 1%positive ]} {[ 1%positive := (0, formatted) ]} 2.

Definition noBindings : bindings := mkBindings ∅ [].
(** ** Theorems *)

(** *** Characters *)

Lemma allChars_app p a b : allChars p (a ++ b) = allChars p a && allChars p b.
Proof.
  induction a as [|c a IH]; simpl; [reflexivity|].
  rewrite IH. apply andb_assoc.
Qed.

Lemma allChars_impl (p q : ascii -> bool) s :
  (forall c, p c = true -> q c = true) -> allChars p s = true -> allChars q s = true.
Proof.
  intros Hpq. induction s as [|c r IH]; simpl; [reflexivity|].
  intros H. apply andb_true_iff in H as [Hc Hr].
  rewrite (Hpq _ Hc), (IH Hr). reflexivity.
Qed.

Lemma querySafe_allChars s : querySafe s = allChars querySafeChar s.
Proof. induction s as [|c r IH]; simpl; congruence. Qed.

Lemma querySafeChar_queryChar c : querySafeChar c = true -> queryChar c = true.
Proof. ascii_cases c; vm_compute; congruence. Qed.

Lemma queryChar_tailChar c : queryChar c = true -> tailChar c = true.
Proof. ascii_cases c; vm_compute; congruence. Qed.

Lemma tailChar_printable c : tailChar c = true -> printable c = true.
Proof. ascii_cases c; vm_compute; congruence. Qed.

Lemma printable_skipWs c r : printable c = true -> skipWs (String c r) = None.
Proof. ascii_cases c; vm_compute; congruence. Qed.

(** *** Strings of harmless characters *)

Lemma append_assoc (a b c : string) : (a ++ b) ++ c = a ++ (b ++ c).
Proof. induction a as [|x a IH]; simpl; congruence. Qed.

Lemma append_empty_r (a : string) : a ++ "" = a.
Proof. induction a as [|x a IH]; simpl; congruence. Qed.

Lemma startsWs_printable c r : printable c = true -> startsWs (String c r) = false.
Proof. intros H. unfold startsWs. rewrite (printable_skipWs c r H). reflexivity. Qed.

Lemma urlTail_id s : allChars tailChar s = true -> urlTail s = s.
Proof.
  induction s as [|c r IH]; simpl; [reflexivity|].
  intros H. apply andb_true_iff in H as [Hc Hr].
  pose proof (tailChar_printable _ Hc) as Hp.
  pose proof (startsWs_printable c r Hp) as Hw. unfold startsWs in Hw. simpl in Hw.
  fold (skipWs (String c r)) in *.
  change (match skipWs (String c r) with Some _ => true | None => false end)
    with (startsWs (String c r)).
  rewrite (startsWs_printable c r Hp).
  unfold tailChar in Hc. apply andb_true_iff in Hc as [Hc Ha]. apply andb_true_iff in Hc as [_ Hq].
  apply negb_true_iff in Ha, Hq. rewrite Ha, Hq. simpl. rewrite (IH Hr). reflexivity.
Qed.

Lemma append_length (a b : string) :
  String.length (a ++ b) = String.length a + String.length b.
Proof. induction a as [|c a IH]; simpl; congruence. Qed.


Lemma stripTrailingC0_printable s :
  allChars printable s = true -> stripTrailingC0 s = s.
Proof.
  induction s as [|c r IH]; simpl; [reflexivity|].
  intros H. apply andb_true_iff in H as [Hc Hr]. rewrite (IH Hr).
  assert (isC0OrSpace c = false) as -> by (revert Hc; ascii_cases c; vm_compute; congruence).
  reflexivity.
Qed.

Lemma removeTabNewline_printable s :
  allChars printable s = true -> removeTabNewline s = s.
Proof.
  induction s as [|c r IH]; simpl; [reflexivity|].
  intros H. apply andb_true_iff in H as [Hc Hr]. rewrite (IH Hr).
  assert (isTabOrNewline c = false) as -> by (revert Hc; ascii_cases c; vm_compute; congruence).
  reflexivity.
Qed.

Lemma span_none (stop : ascii -> bool) s :
  allChars (fun c => negb (stop c)) s = true -> span stop s = (s, "").
Proof.
  induction s as [|c r IH]; simpl; [reflexivity|].
  intros H. apply andb_true_iff in H as [Hc Hr].
  apply negb_true_iff in Hc. rewrite Hc, (IH Hr). reflexivity.
Qed.

Lemma percentEncode_id (inSet : ascii -> bool) s :
  allChars (fun c => negb (inSet c)) s = true -> percentEncode inSet s = s.
Proof.
  induction s as [|c r IH]; simpl; [reflexivity|].
  intros H. apply andb_true_iff in H as [Hc Hr].
  apply negb_true_iff in Hc. rewrite Hc, (IH Hr). reflexivity.
Qed.

Lemma queryChar_not_hash c : queryChar c = true -> negb (Ascii.eqb "#" c) = true.
Proof. ascii_cases c; vm_compute; congruence. Qed.

Lemma queryChar_not_encoded c : queryChar c = true -> negb (specialQuerySet c) = true.
Proof. ascii_cases c; vm_compute; congruence. Qed.

(** The query state on a query of harmless characters keeps it whole. *)
Lemma parseQueryFragment_query q :
  allChars queryChar q = true ->
  parseQueryFragment true (String "?" q) = (Some q, None).
Proof.
  intros H. unfold parseQueryFragment.
  rewrite (span_none (Ascii.eqb "#") q)
    by (revert H; apply allChars_impl, queryChar_not_hash).
  rewrite percentEncode_id
    by (revert H; apply allChars_impl, queryChar_not_encoded).
  reflexivity.
Qed.

(** *** Splitting and decoding form data *)

Lemma splitOn_no_sep sep cur a :
  allChars (fun c => negb (Ascii.eqb c sep)) a = true ->
  splitOn sep cur a = [cur ++ a].
Proof.
  revert cur. induction a as [|c r IH]; intros cur; simpl.
  - intros _. rewrite append_empty_r. reflexivity.
  - intros H. apply andb_true_iff in H as [Hc Hr].
    apply negb_true_iff in Hc. rewrite Hc, (IH _ Hr), append_assoc. reflexivity.
Qed.

Lemma splitOn_sep sep cur a b :
  allChars (fun c => negb (Ascii.eqb c sep)) a = true ->
  splitOn sep cur (a ++ String sep b) = (cur ++ a) :: splitOn sep "" b.
Proof.
  revert cur. induction a as [|c r IH]; intros cur; simpl.
  - intros _. rewrite Ascii.eqb_refl, append_empty_r. reflexivity.
  - intros H. apply andb_true_iff in H as [Hc Hr].
    apply negb_true_iff in Hc. rewrite Hc, (IH _ Hr), append_assoc. reflexivity.
Qed.

Lemma plusToSpace_id s :
  allChars (fun c => negb (Ascii.eqb c "+")) s = true -> plusToSpace s = s.
Proof.
  induction s as [|c r IH]; simpl; [reflexivity|].
  intros H. apply andb_true_iff in H as [Hc Hr].
  apply negb_true_iff in Hc. rewrite Hc, (IH Hr). reflexivity.
Qed.

Lemma percentDecode_id s :
  allChars (fun c => negb (Ascii.eqb c "%")) s = true -> percentDecode s = s.
Proof.
  induction s as [|c r IH]; [reflexivity|].
  intros H. simpl in H. apply andb_true_iff in H as [Hc Hr].
  apply negb_true_iff in Hc.
  assert (percentDecode (String c r) = String c (percentDecode r)) as ->.
  { revert Hc. ascii_cases c; try reflexivity. vm_compute. congruence. }
  rewrite (IH Hr). reflexivity.
Qed.

Lemma utf8Decode_ascii s :
  allChars (fun c => (code c <? 128)%N) s = true -> utf8Decode 0 128 191 "" s = s.
Proof.
  induction s as [|c r IH]; simpl; [reflexivity|].
  intros H. apply andb_true_iff in H as [Hc Hr].
  rewrite Hc, (IH Hr). reflexivity.
Qed.

Lemma querySafeChar_facts c :
  querySafeChar c = true ->
  negb (Ascii.eqb c "+") = true /\ negb (Ascii.eqb c "%") = true
  /\ (code c <? 128)%N = true /\ negb (Ascii.eqb c "&") = true.
Proof. ascii_cases c; vm_compute; intuition congruence. Qed.

Lemma formDecode_id s : querySafe s = true -> formDecode s = s.
Proof.
  rewrite querySafe_allChars. intros H. unfold formDecode.
  rewrite plusToSpace_id, percentDecode_id, utf8Decode_ascii; try reflexivity;
    revert H; apply allChars_impl; intros c Hc;
    destruct (querySafeChar_facts c Hc) as (? & ? & ? & ?); assumption.
Qed.

(** *** The extractor on a Normalized String *)

Lemma reUrlMatch_unfold s :
  reUrlMatch s = match matchUrlAt s with
                 | Some m => Some m
                 | None => match s with
                           | "" => None
                           | String _ r => reUrlMatch r
                           end
                 end.
Proof. destruct s; reflexivity. Qed.

Lemma reUrlMatch_domain r :
  allChars tailChar r = true ->
  reUrlMatch ("wplace.live" ++ r) = Some ("wplace.live" ++ r).
Proof.
  intros H.
  assert (matchUrlAt ("wplace.live" ++ r) = Some ("wplace.live" ++ r)) as E.
  { unfold matchUrlAt, matchWwwDomainTail, matchDomainTail. simpl.
    rewrite (urlTail_id r H). reflexivity. }
  rewrite reUrlMatch_unfold, E. reflexivity.
Qed.

Section NormalizedUrl.

Variable parseHost : bool -> string -> option string.

Lemma parseURL_normalized q :
  allChars queryChar q = true ->
  parseURL parseHost ("https://wplace.live/?" ++ q)
  = option_map (fun h => mkURL "https" (Some h) None (PathSegments [""]) (Some q) None)
               (parseHost false "wplace.live").
Proof.
  intros H. unfold parseURL, urlPreprocess.
  assert (allChars printable ("https://wplace.live/?" ++ q) = true) as Hp.
  { simpl. revert H. apply allChars_impl. intros c Hc.
    apply tailChar_printable, queryChar_tailChar, Hc. }
  change (stripLeadingC0 ("https://wplace.live/?" ++ q)) with ("https://wplace.live/?" ++ q).
  rewrite (stripTrailingC0_printable _ Hp), (removeTabNewline_printable _ Hp).
  change (parseScheme ("https://wplace.live/?" ++ q))
    with (Some ("https", "//wplace.live/?" ++ q)).
  cbv iota beta.
  change (String.eqb "https" "file") with false.
  change (isSpecial "https") with true. cbv iota.
  change (skipSlashes ("//wplace.live/?" ++ q)) with ("wplace.live/?" ++ q).
  unfold parseAuthorityOn.
  change (span (endsAuthority true) ("wplace.live/?" ++ q))
    with ("wplace.live", "/?" ++ q).
  cbv iota beta.
  change (afterLastAt "wplace.live") with (@None string). cbv iota.
  change (splitHostPort false "wplace.live") with ("wplace.live", @None string).
  cbv iota beta.
  change (isEmpty "wplace.live") with false.
  change (negb true) with false. cbv iota beta. simpl andb. cbv iota.
  destruct (parseHost false "wplace.live") as [h|]; [|reflexivity].
  change (span isQueryOrFragmentStart ("/?" ++ q)) with ("/", String "?" q).
  cbv iota beta.
  rewrite (parseQueryFragment_query q H).
  reflexivity.
Qed.

End NormalizedUrl.

Lemma querySafe_no_amp s :
  querySafe s = true -> allChars (fun c => negb (Ascii.eqb c "&")) s = true.
Proof.
  rewrite querySafe_allChars. apply allChars_impl. intros c Hc.
  destruct (querySafeChar_facts c Hc) as (? & ? & ? & ?); assumption.
Qed.

Lemma parseUrlencoded_normalized L G zoom :
  querySafe L = true -> querySafe G = true -> zoomOk zoom = true ->
  parseUrlencoded ("lat=" ++ L ++ "&lng=" ++ G ++ zoomSuffix zoom)
  = ("lat", L) :: ("lng", G) :: zoomPairs zoom.
Proof.
  intros HL HG Hz. unfold parseUrlencoded.
  assert (forall rest, splitOn "&" "" ("lat=" ++ L ++ String "&" rest)
                       = ("lat=" ++ L) :: splitOn "&" "" rest) as E1.
  { intros rest. rewrite <- append_assoc. apply (splitOn_sep "&" "").
    simpl. apply querySafe_no_amp, HL. }
  change ("lat=" ++ L ++ "&lng=" ++ G ++ zoomSuffix zoom)
    with ("lat=" ++ L ++ String "&" ("lng=" ++ G ++ zoomSuffix zoom)).
  rewrite E1.
  assert (splitOn "&" "" ("lng=" ++ G ++ zoomSuffix zoom)
          = ("lng=" ++ G) :: map (fun z => "zoom=" ++ z)
                               (match zoom with Some z => [z] | None => [] end)) as E2.
  { destruct zoom as [z|]; simpl zoomSuffix.
    - change ("lng=" ++ G ++ "&zoom=" ++ z) with ("lng=" ++ G ++ String "&" ("zoom=" ++ z)).
      rewrite <- append_assoc, (splitOn_sep "&" "").
      + rewrite (splitOn_no_sep "&" "").
        * reflexivity.
        * simpl. apply querySafe_no_amp.
          simpl in Hz. apply andb_true_iff in Hz. apply Hz.
      + simpl. apply querySafe_no_amp, HG.
    - rewrite append_empty_r. rewrite (splitOn_no_sep "&" "").
      + reflexivity.
      + simpl. apply querySafe_no_amp, HG. }
  rewrite E2. simpl.
  rewrite (formDecode_id L HL), (formDecode_id G HG).
  change (formDecode "lat") with "lat". change (formDecode "lng") with "lng".
  destruct zoom as [z|]; simpl; [|reflexivity].
  simpl in Hz. apply andb_true_iff in Hz as [_ Hz].
  rewrite (formDecode_id z Hz). reflexivity.
Qed.

Lemma isFinite_not_NaN x : isFinite x = true -> isNaN x = false.
Proof.
  unfold isFinite, isNaN, is_finite. intros H.
  apply negb_true_iff, orb_false_iff in H. apply H.
Qed.

Lemma round3_Some_finite v s : round3 v = Some s -> isFinite (toNumber v) = true.
Proof.
  unfold round3. destruct (isFinite (toNumber v)); [reflexivity|discriminate].
Qed.

(** The structured path on the parameters of a Normalized String whose
    coordinate texts are reproduced by [parseFloat] and [round3]. *)
Lemma formatStructured_normalized L G zoom :
  zoomOk zoom = true ->
  round3 (VNum (parseFloat L)) = Some L ->
  round3 (VNum (parseFloat G)) = Some G ->
  formatStructured (("lat", L) :: ("lng", G) :: zoomPairs zoom)
  = Some (normalizedString L G zoom).
Proof.
  intros Hz HL HG. unfold formatStructured, parseFloatParam.
  change (paramHas (("lat", L) :: ("lng", G) :: zoomPairs zoom) "lat") with true.
  change (paramHas (("lat", L) :: ("lng", G) :: zoomPairs zoom) "lng") with true.
  change (paramGet (("lat", L) :: ("lng", G) :: zoomPairs zoom) "lat") with (Some L).
  change (paramGet (("lat", L) :: ("lng", G) :: zoomPairs zoom) "lng") with (Some G).
  change (paramGet (("lat", L) :: ("lng", G) :: zoomPairs zoom) "zoom")
    with (paramGet (zoomPairs zoom) "zoom").
  cbn [negb orb showNullable].
  pose proof (isFinite_not_NaN _ (round3_Some_finite _ _ HL)) as NL.
  pose proof (isFinite_not_NaN _ (round3_Some_finite _ _ HG)) as NG.
  cbn [toNumber] in NL, NG. rewrite NL, NG.
  cbn [orb]. rewrite HL, HG. unfold normalizedString. f_equal. f_equal.
  destruct zoom as [z|]; [|reflexivity].
  simpl in Hz. apply andb_true_iff in Hz as [Hz _].
  simpl. rewrite Hz. reflexivity.
Qed.

(** *** Decimal digits and the canonical text *)

Lemma allChars_takeN p n s : allChars p s = true -> allChars p (takeN n s) = true.
Proof.
  revert s. induction n as [|n IH]; intros [|c s]; simpl; try reflexivity.
  intros H. apply andb_true_iff in H as [-> Hs]. apply (IH _ Hs).
Qed.

Lemma allChars_dropN p n s : allChars p s = true -> allChars p (dropN n s) = true.
Proof.
  revert s. induction n as [|n IH]; intros [|c s]; simpl; try (intros; assumption).
  intros H. apply andb_true_iff in H as [_ Hs]. apply (IH _ Hs).
Qed.

Lemma takeN_dropN n s : takeN n s ++ dropN n s = s.
Proof.
  revert s. induction n as [|n IH]; intros [|c s]; simpl; try reflexivity.
  rewrite IH. reflexivity.
Qed.

Lemma dropN_length n s : String.length (dropN n s) = String.length s - n.
Proof.
  revert s. induction n as [|n IH]; intros [|c s]; simpl; try lia.
  apply IH.
Qed.

Lemma string_of_uint_digits d : allChars isDigit (NilEmpty.string_of_uint d) = true.
Proof. induction d; simpl; assumption || reflexivity. Qed.

Lemma decDigits_digits n : allChars isDigit (decDigits n) = true.
Proof.
  unfold decDigits, NilZero.string_of_uint.
  destruct (N.to_uint (Z.to_N n)); try reflexivity; apply string_of_uint_digits.
Qed.

Lemma zeros_digits n : allChars isDigit (zeros n) = true.
Proof. induction n; simpl; assumption || reflexivity. Qed.

Lemma zeros_length n : String.length (zeros n) = n.
Proof. induction n; simpl; congruence. Qed.

Lemma isDigit_cases c :
  isDigit c = true ->
  (c = "0" \/ c = "1" \/ c = "2" \/ c = "3" \/ c = "4"
   \/ c = "5" \/ c = "6" \/ c = "7" \/ c = "8" \/ c = "9")%char.
Proof. ascii_cases c; vm_compute; intros; try discriminate; tauto. Qed.

Lemma isDigit_not_point c : isDigit c = true -> Ascii.eqb c "." = false.
Proof. ascii_cases c; vm_compute; congruence. Qed.

Lemma stripTrailingZeros_digits a b :
  allChars isDigit a = true ->
  stripTrailingZeros (a ++ b) = a ++ stripTrailingZeros b.
Proof.
  induction a as [|c a IH]; [reflexivity|].
  intros H. simpl in H. apply andb_true_iff in H as [Hc Ha].
  change (String c a ++ b) with (String c (a ++ b)).
  cbn [stripTrailingZeros]. rewrite (isDigit_not_point c Hc), (IH Ha). reflexivity.
Qed.

(** The replacement and the dropping of trailing zeros agree on three
    decimals. *)
Lemma stripTrailingZeros_decimals fp :
  allChars isDigit fp = true -> String.length fp = 3 ->
  stripTrailingZeros (String "." fp)
  = (if isEmpty (dropTrailingZeros fp) then "" else String "." (dropTrailingZeros fp)).
Proof.
  destruct fp as [|a [|b [|c [|? ?]]]]; try discriminate.
  cbn [allChars]. intros H _.
  apply andb_true_iff in H as [Ha H]. apply andb_true_iff in H as [Hb H].
  apply andb_true_iff in H as [Hc _].
  destruct (isDigit_cases a Ha) as [->|[->|[->|[->|[->|[->|[->|[->|[->| ->]]]]]]]]];
    destruct (isDigit_cases b Hb) as [->|[->|[->|[->|[->|[->|[->|[->|[->| ->]]]]]]]]];
    destruct (isDigit_cases c Hc) as [->|[->|[->|[->|[->|[->|[->|[->|[->| ->]]]]]]]]];
    reflexivity.
Qed.

(** [toFixed(3)]'s digits, with their sign, go to the canonical text under
    the replacement of [round3]. *)
Lemma stripTrailingZeros_fixedDigits k :
  stripTrailingZeros ((if (k <? 0)%Z then "-" else "") ++ fixedDigits (Z.abs k))
  = renderThousandths k.
Proof.
  unfold fixedDigits, renderThousandths.
  set (ds := zeros (4 - String.length (decDigits (Z.abs k))) ++ decDigits (Z.abs k)).
  assert (allChars isDigit ds = true) as Hds
    by (subst ds; rewrite allChars_app, zeros_digits, decDigits_digits; reflexivity).
  assert (4 <= String.length ds) as Hlen
    by (subst ds; rewrite append_length, zeros_length; lia).
  set (n := String.length ds) in *.
  assert (stripTrailingZeros (takeN (n - 3) ds ++ "." ++ dropN (n - 3) ds)
          = takeN (n - 3) ds
            ++ (if isEmpty (dropTrailingZeros (dropN (n - 3) ds)) then ""
                else String "." (dropTrailingZeros (dropN (n - 3) ds)))) as E.
  { rewrite stripTrailingZeros_digits by (apply allChars_takeN, Hds).
    f_equal. apply stripTrailingZeros_decimals.
    - apply allChars_dropN, Hds.
    - rewrite dropN_length. fold n. lia. }
  destruct (k <? 0)%Z.
  - change ("-" ++ takeN (n - 3) ds ++ "." ++ dropN (n - 3) ds)
      with (String "-" (takeN (n - 3) ds ++ "." ++ dropN (n - 3) ds)).
    cbn [stripTrailingZeros]. change (Ascii.eqb "-" ".") with false. cbv iota.
    rewrite E. reflexivity.
  - exact E.
Qed.

(** *** The mantissa and exponent of a normal Number *)

Lemma digits2_pos_size p : digits2_pos p = Pos.size p.
Proof. induction p; simpl; congruence. Qed.

Lemma digits2_pos_53 p :
  (4503599627370496 <= Zpos p < 9007199254740992)%Z -> digits2_pos p = 53%positive.
Proof.
  intros [Hl Hu]. rewrite digits2_pos_size.
  assert (Z.pos p < Z.pos (2 ^ Pos.size p))%Z as Hgt by exact (Pos.size_gt p).
  assert (Z.pos (2 ^ Pos.size p) <= Z.pos p~0)%Z as Hle by exact (Pos.size_le p).
  rewrite Pos2Z.inj_pow in Hgt, Hle.
  change (Z.pos p~0) with (2 * Z.pos p)%Z in Hle.
  set (n := Z.pos (Pos.size p)) in *.
  assert (0 < n)%Z as Hn by (subst n; lia).
  assert (52 < n)%Z as H1.
  { apply (Z.pow_lt_mono_r_iff 2); [lia|lia|].
    change (2 ^ 52)%Z with 4503599627370496%Z. lia. }
  assert (n < 54)%Z as H2.
  { apply (Z.pow_lt_mono_r_iff 2); [lia|lia|].
    change (2 ^ 54)%Z with 18014398509481984%Z. lia. }
  assert (n = 53%Z) as E by lia.
  subst n. injection E as E. exact E.
Qed.

Lemma Prim2SF_normal x r se :
  PrimFloat.is_nan x = false -> PrimFloat.is_zero x = false ->
  PrimFloat.is_infinity x = false ->
  PrimFloat.frshiftexp x = (r, se) ->
  (4503599627370496 <= Uint63.to_Z (PrimFloat.normfr_mantissa r) < 9007199254740992)%Z ->
  (-1074 <= Uint63.to_Z se - 2154)%Z ->
  Prim2SF x = S754_finite (PrimFloat.get_sign x)
                (Z.to_pos (Uint63.to_Z (PrimFloat.normfr_mantissa r)))
                (Uint63.to_Z se - 2154).
Proof.
  intros Hn Hz Hi Hf Hm He.
  unfold Prim2SF, FloatOps.Z.frexp. rewrite Hn, Hz, Hi, Hf.
  destruct (Uint63.to_Z (PrimFloat.normfr_mantissa r)) as [|p|p] eqn:Ep; try lia.
  unfold shr_fexp, Zdigits2. rewrite (digits2_pos_53 p Hm).
  unfold fexp, SpecFloat.emin, FloatOps.shift, FloatOps.prec, FloatOps.emax.
  replace (Uint63.to_Z se - 2101 - 53)%Z with (Uint63.to_Z se - 2154)%Z by lia.
  set (e := (Uint63.to_Z se - 2154)%Z) in *.
  replace (Z.max (53 + e - 53) (3 - 1024 - 53) - e)%Z with 0%Z by lia.
  reflexivity.
Qed.

Lemma pow2_double t : (1 <= t)%Z -> (2 ^ t = 2 * 2 ^ (t - 1))%Z.
Proof.
  intros Ht. rewrite <- Z.pow_succ_r by lia. f_equal. lia.
Qed.

(** The shift of [Math.round] and of [toFixed] as a division. *)
Lemma nearest_shift b t :
  (1 <= t)%Z ->
  (Z.shiftr (2 * b + Z.shiftl 1 t) (1 + t) = (b + 2 ^ (t - 1)) / 2 ^ t)%Z.
Proof.
  intros Ht.
  rewrite Z.shiftl_1_l, Z.shiftr_div_pow2 by lia.
  replace (1 + t)%Z with (Z.succ t) by lia. rewrite Z.pow_succ_r by lia.
  rewrite (pow2_double t Ht) at 1.
  replace (2 * b + 2 * 2 ^ (t - 1))%Z with (2 * (b + 2 ^ (t - 1)))%Z by ring.
  pose proof (Z.pow_pos_nonneg 2 t).
  rewrite Z.div_mul_cancel_l by lia. reflexivity.
Qed.

(** The same below zero, where the shift rounds towards -Infinity. *)
Lemma nearest_shift_neg a t :
  (1 <= t)%Z ->
  (Z.shiftr (2 * - a + Z.shiftl 1 t) (1 + t) = - ((a + 2 ^ (t - 1) - 1) / 2 ^ t))%Z.
Proof.
  intros Ht. rewrite (nearest_shift (- a) t Ht), (pow2_double t Ht).
  set (P := (2 ^ (t - 1))%Z).
  assert (0 < P)%Z as HP by (apply Z.pow_pos_nonneg; lia).
  pose proof (Z.div_mod (a + P - 1) (2 * P) ltac:(lia)) as E.
  pose proof (Z.mod_pos_bound (a + P - 1) (2 * P) ltac:(lia)) as B.
  set (q := ((a + P - 1) / (2 * P))%Z) in *.
  set (r := ((a + P - 1) mod (2 * P))%Z) in *.
  symmetry. apply (Z.div_unique _ _ _ (2 * P - 1 - r)); [left; lia|].
  lia.
Qed.

Lemma pow2_le_57 t : (0 <= t <= 57)%Z -> (0 < 2 ^ t <= 144115188075855872)%Z.
Proof.
  intros Ht. split; [apply Z.pow_pos_nonneg; lia|].
  change 144115188075855872%Z with (2 ^ 57)%Z.
  apply Z.pow_le_mono_r; lia.
Qed.

(** [nearestThousandth] is the integer that [toFixed(3)] prints. *)
Lemma nearestThousandth_toFixed3 x n :
  nearestThousandth x = Some n ->
  toFixed3 x = (if PrimFloat.get_sign x then "-" else "") ++ fixedDigits (Uint63.to_Z n).
Proof.
  unfold nearestThousandth.
  destruct (PrimFloat.is_nan x) eqn:Hn; [discriminate|].
  destruct (PrimFloat.is_zero x) eqn:Hz; [discriminate|].
  destruct (PrimFloat.is_infinity x) eqn:Hi; [discriminate|].
  cbn [orb].
  destruct (PrimFloat.frshiftexp x) as [r se] eqn:Hf.
  set (m := PrimFloat.normfr_mantissa r).
  destruct (Uint63.lebP 4503599627370496 m) as [H1|]; [|discriminate].
  destruct (Uint63.ltbP m 9007199254740992) as [H2|]; [|discriminate].
  destruct (Uint63.lebP 2096 se) as [H3|]; [|discriminate].
  destruct (Uint63.lebP se 2153) as [H4|]; [|discriminate].
  cbn [andb]. intros [= <-].
  change (Uint63.to_Z 4503599627370496) with 4503599627370496%Z in H1.
  change (Uint63.to_Z 9007199254740992) with 9007199254740992%Z in H2.
  change (Uint63.to_Z 2096) with 2096%Z in H3.
  change (Uint63.to_Z 2153) with 2153%Z in H4.
  assert (Prim2SF x = S754_finite (PrimFloat.get_sign x)
            (Z.to_pos (Uint63.to_Z m)) (Uint63.to_Z se - 2154)) as E
    by (apply (Prim2SF_normal x r se Hn Hz Hi Hf); fold m; lia).
  unfold toFixed3. rewrite E.
  set (a := Uint63.to_Z m) in *. set (e := (Uint63.to_Z se - 2154)%Z).
  destruct (Z.leb_spec 0 e); [subst e; lia|].
  f_equal. f_equal.
  rewrite Z2Pos.id by lia.
  assert (wB = 9223372036854775808)%Z as Ew by reflexivity.
  assert (Uint63.to_Z (2154 - se) = - e)%Z as Es.
  { rewrite Uint63.sub_spec. change (Uint63.to_Z 2154) with 2154%Z.
    rewrite Z.mod_small; [subst e; lia|]. rewrite Ew. lia. }
  assert (Uint63.to_Z (2154 - se - 1) = - e - 1)%Z as Es1.
  { rewrite Uint63.sub_spec, Es. change (Uint63.to_Z 1) with 1%Z.
    rewrite Z.mod_small; [reflexivity|]. rewrite Ew. subst e. lia. }
  pose proof (pow2_le_57 (- e - 1) ltac:(subst e; lia)) as Hp.
  rewrite Uint63.lsr_spec, Uint63.add_spec, Uint63.mul_spec, Uint63.lsl_spec, Es, Es1.
  change (Uint63.to_Z 1000) with 1000%Z. change (Uint63.to_Z 1) with 1%Z.
  fold a. rewrite Z.mul_1_l.
  rewrite (Z.mod_small (a * 1000)) by (rewrite Ew; lia).
  rewrite (Z.mod_small (2 ^ (- e - 1))) by (rewrite Ew; lia).
  rewrite Z.mod_small by (rewrite Ew; lia).
  replace (2000 * a)%Z with (2 * (a * 1000))%Z by ring.
  change (1 - e)%Z with (1 + - e)%Z.
  rewrite (nearest_shift (a * 1000) (- e)) by lia.
  reflexivity.
Qed.

Lemma rendersThousandthsFast_sound k :
  (Z.abs k < 9223372036854775808)%Z ->
  rendersThousandthsFast k = true -> rendersThousandths k = true.
Proof.
  intros Hk. unfold rendersThousandthsFast.
  destruct (nearestThousandth (fdiv (ofZ k) f1000)) as [n|] eqn:E; [|trivial].
  intros H. apply andb_true_iff in H as [Hn Hs].
  apply Uint63.eqb_spec in Hn. apply Bool.eqb_prop in Hs.
  unfold rendersThousandths. apply String.eqb_eq.
  rewrite (nearestThousandth_toFixed3 _ _ E), Hs, Hn, Uint63.of_Z_spec.
  rewrite Z.mod_small by (change wB with 9223372036854775808%Z; lia).
  apply stripTrailingZeros_fixedDigits.
Qed.

(** [nearestInteger] is the magnitude of what [Math.round] gives. *)
Lemma nearestInteger_mathRound y n :
  nearestInteger y = Some n ->
  mathRound y
  = let k := if PrimFloat.get_sign y then (- Uint63.to_Z n)%Z else Uint63.to_Z n in
    if (k =? 0)%Z then (if PrimFloat.get_sign y then PrimFloat.neg_zero else PrimFloat.zero)
    else ofZ k.
Proof.
  unfold nearestInteger.
  destruct (PrimFloat.is_nan y) eqn:Hn; [discriminate|].
  destruct (PrimFloat.is_zero y) eqn:Hz; [discriminate|].
  destruct (PrimFloat.is_infinity y) eqn:Hi; [discriminate|].
  cbn [orb].
  destruct (PrimFloat.frshiftexp y) as [r se] eqn:Hf.
  set (m := PrimFloat.normfr_mantissa r).
  destruct (Uint63.lebP 4503599627370496 m) as [H1|]; [|discriminate].
  destruct (Uint63.ltbP m 9007199254740992) as [H2|]; [|discriminate].
  destruct (Uint63.lebP 2096 se) as [H3|]; [|discriminate].
  destruct (Uint63.lebP se 2153) as [H4|]; [|discriminate].
  cbn [andb]. intros [= <-].
  change (Uint63.to_Z 4503599627370496) with 4503599627370496%Z in H1.
  change (Uint63.to_Z 9007199254740992) with 9007199254740992%Z in H2.
  change (Uint63.to_Z 2096) with 2096%Z in H3.
  change (Uint63.to_Z 2153) with 2153%Z in H4.
  assert (Prim2SF y = S754_finite (PrimFloat.get_sign y)
            (Z.to_pos (Uint63.to_Z m)) (Uint63.to_Z se - 2154)) as E
    by (apply (Prim2SF_normal y r se Hn Hz Hi Hf); fold m; lia).
  unfold mathRound. rewrite E.
  set (a := Uint63.to_Z m) in *. set (e := (Uint63.to_Z se - 2154)%Z).
  destruct (Z.leb_spec 0 e); [subst e; lia|].
  assert (wB = 9223372036854775808)%Z as Ew by reflexivity.
  assert (Uint63.to_Z (2154 - se) = - e)%Z as Es.
  { rewrite Uint63.sub_spec. change (Uint63.to_Z 2154) with 2154%Z.
    rewrite Z.mod_small; [subst e; lia|]. rewrite Ew. lia. }
  assert (Uint63.to_Z (2154 - se - 1) = - e - 1)%Z as Es1.
  { rewrite Uint63.sub_spec, Es. change (Uint63.to_Z 1) with 1%Z.
    rewrite Z.mod_small; [reflexivity|]. rewrite Ew. subst e. lia. }
  pose proof (pow2_le_57 (- e - 1) ltac:(subst e; lia)) as Hp.
  assert (Uint63.to_Z (1 << (2154 - se - 1)) = 2 ^ (- e - 1))%Z as El.
  { rewrite Uint63.lsl_spec, Es1. change (Uint63.to_Z 1) with 1%Z.
    rewrite Z.mul_1_l. apply Z.mod_small. rewrite Ew. lia. }
  assert (Uint63.to_Z (m + (1 << (2154 - se - 1))) = a + 2 ^ (- e - 1))%Z as Ea.
  { rewrite Uint63.add_spec, El. fold a. apply Z.mod_small. rewrite Ew. lia. }
  change (1 - e)%Z with (1 + - e)%Z.
  destruct (PrimFloat.get_sign y).
  - assert (Uint63.to_Z ((m + (1 << (2154 - se - 1)) - 1) >> (2154 - se))
            = (a + 2 ^ (- e - 1) - 1) / 2 ^ (- e))%Z as ->.
    { rewrite Uint63.lsr_spec, Uint63.sub_spec, Ea, Es.
      change (Uint63.to_Z 1) with 1%Z.
      rewrite Z.mod_small by (rewrite Ew; lia). reflexivity. }
    replace (Z.neg (Z.to_pos a)) with (- a)%Z
      by (rewrite <- Pos2Z.opp_pos, Z2Pos.id by lia; reflexivity).
    rewrite (nearest_shift_neg a (- e)) by lia. reflexivity.
  - assert (Uint63.to_Z ((m + (1 << (2154 - se - 1))) >> (2154 - se))
            = (a + 2 ^ (- e - 1)) / 2 ^ (- e))%Z as ->.
    { rewrite Uint63.lsr_spec, Ea, Es. reflexivity. }
    rewrite Z2Pos.id by lia.
    rewrite (nearest_shift a (- e)) by lia. reflexivity.
Qed.

(** *** The thousandths up to [maxThousandths], one by one *)

Lemma allFrom_spec p n k :
  allFrom p n k = true ->
  forall i, (k <= i < k + Z.of_nat n)%Z -> p i = true.
Proof.
  revert k. induction n as [|n IH]; intros k H i Hi; [lia|].
  simpl in H. apply andb_true_iff in H as [Hk Hr].
  destruct (Z.eq_dec i k) as [->|]; [exact Hk|].
  apply (IH (k + 1)%Z Hr). lia.
Qed.

Lemma rendersThousandths_range :
  allFrom rendersThousandthsFast (Z.to_nat (2 * maxThousandths + 1)) (- maxThousandths)
  = true.
Proof. vm_compute. reflexivity. Qed.

Lemma rendersThousandths_ok k :
  (- maxThousandths <= k <= maxThousandths)%Z ->
  stripTrailingZeros (toFixed3 (fdiv (ofZ k) f1000)) = renderThousandths k.
Proof.
  intros Hk. apply String.eqb_eq.
  apply rendersThousandthsFast_sound; [unfold maxThousandths in Hk; lia|].
  apply (allFrom_spec _ _ _ rendersThousandths_range).
  unfold maxThousandths in *. lia.
Qed.

Lemma roundsBack_range :
  allFrom roundsBack (Z.to_nat (2 * maxThousandths + 1)) (- maxThousandths) = true.
Proof. vm_compute. reflexivity. Qed.

Lemma roundsBack_sound k :
  (Z.abs k < 9223372036854775808)%Z ->
  roundsBack k = true ->
  strDecimalPrefix (renderThousandths k) = Some (fdiv (ofZ k) f1000, "")
  /\ isFinite (fdiv (ofZ k) f1000) = true
  /\ mathRound (fmul (fdiv (ofZ k) f1000) f1000) = ofZ k.
Proof.
  intros Hk. unfold roundsBack.
  set (x := fdiv (ofZ k) f1000). set (y := fmul x f1000).
  intros H. apply andb_true_iff in H as [H Hr]. apply andb_true_iff in H as [Hp Hf].
  split.
  { destruct (strDecimalPrefix (renderThousandths k)) as [[x' [|? ?]]|];
      try discriminate.
    apply FloatAxioms.Leibniz.eqb_spec in Hp. rewrite Hp. reflexivity. }
  split; [exact Hf|].
  destruct (nearestInteger y) as [n|] eqn:E.
  - apply andb_true_iff in Hr as [Hr Hk0]. apply andb_true_iff in Hr as [Hn Hs].
    apply Uint63.eqb_spec in Hn. apply Bool.eqb_prop in Hs.
    apply negb_true_iff, Z.eqb_neq in Hk0.
    rewrite (nearestInteger_mathRound y n E), Hs, Hn, Uint63.of_Z_spec.
    rewrite Z.mod_small by (change wB with 9223372036854775808%Z; lia).
    cbv zeta.
    replace (if (k <? 0)%Z then (- Z.abs k)%Z else Z.abs k) with k
      by (destruct (Z.ltb_spec k 0); lia).
    destruct (Z.eqb_spec k 0); [contradiction|reflexivity].
  - apply FloatAxioms.Leibniz.eqb_spec in Hr. exact Hr.
Qed.

(** *** The canonical texts are fixed points of [round3] *)

Lemma dropTrailingZeros_digits s :
  allChars isDigit s = true -> allChars isDigit (dropTrailingZeros s) = true.
Proof.
  induction s as [|c r IH]; [reflexivity|].
  intros H. simpl in H. apply andb_true_iff in H as [Hc Hr].
  cbn [dropTrailingZeros].
  destruct (isEmpty (dropTrailingZeros r) && Ascii.eqb c "0"); [reflexivity|].
  cbn [allChars]. rewrite Hc. apply (IH Hr).
Qed.

Lemma isDigit_querySafeChar c : isDigit c = true -> querySafeChar c = true.
Proof. ascii_cases c; vm_compute; congruence. Qed.

Lemma renderThousandths_querySafe k : querySafe (renderThousandths k) = true.
Proof.
  rewrite querySafe_allChars. unfold renderThousandths.
  set (ds := zeros (4 - String.length (decDigits (Z.abs k))) ++ decDigits (Z.abs k)).
  assert (allChars isDigit ds = true) as Hds
    by (subst ds; rewrite allChars_app, zeros_digits, decDigits_digits; reflexivity).
  set (n := String.length ds).
  rewrite !allChars_app.
  rewrite (allChars_impl isDigit querySafeChar (takeN (n - 3) ds)
             isDigit_querySafeChar (allChars_takeN _ _ _ Hds)).
  assert (allChars querySafeChar (dropTrailingZeros (dropN (n - 3) ds)) = true) as Hf
    by (apply (allChars_impl isDigit querySafeChar _ isDigit_querySafeChar),
          dropTrailingZeros_digits, allChars_dropN, Hds).
  destruct (k <? 0)%Z, (isEmpty (dropTrailingZeros (dropN (n - 3) ds)));
    cbn [allChars andb]; rewrite ?Hf; reflexivity.
Qed.

Lemma trimStart_printable s : allChars printable s = true -> trimStart s = s.
Proof.
  destruct s as [|c r]; [reflexivity|].
  intros H. simpl in H. apply andb_true_iff in H as [Hc _].
  unfold trimStart. cbn [String.length trimStartFuel].
  rewrite (printable_skipWs c r Hc). reflexivity.
Qed.

Lemma trimEnd_printable s : allChars printable s = true -> trimEnd s = s.
Proof.
  induction s as [|c r IH]; [reflexivity|].
  intros H. cbn [trimEnd]. rewrite (trimStart_printable _ H).
  simpl in H. apply andb_true_iff in H as [_ Hr].
  cbn [isEmpty]. rewrite (IH Hr). reflexivity.
Qed.

Lemma trim_printable s : allChars printable s = true -> trim s = s.
Proof.
  intros H. unfold trim. rewrite (trimStart_printable s H). apply trimEnd_printable, H.
Qed.

Lemma querySafe_printable s : querySafe s = true -> allChars printable s = true.
Proof.
  rewrite querySafe_allChars. apply allChars_impl. intros c Hc.
  apply tailChar_printable, queryChar_tailChar, querySafeChar_queryChar, Hc.
Qed.

Lemma renderThousandths_number k :
  (- maxThousandths <= k <= maxThousandths)%Z ->
  parseFloat (renderThousandths k) = fdiv (ofZ k) f1000
  /\ stringToNumber (renderThousandths k) = fdiv (ofZ k) f1000
  /\ isFinite (fdiv (ofZ k) f1000) = true
  /\ mathRound (fmul (fdiv (ofZ k) f1000) f1000) = ofZ k.
Proof.
  intros Hk.
  destruct (roundsBack_sound k) as (Hp & Hf & Hr).
  { unfold maxThousandths in Hk. lia. }
  { apply (allFrom_spec _ _ _ roundsBack_range). unfold maxThousandths in *. lia. }
  pose proof (querySafe_printable _ (renderThousandths_querySafe k)) as Hs.
  split; [|split; [|split; assumption]].
  - unfold parseFloat. rewrite (trimStart_printable _ Hs), Hp. reflexivity.
  - unfold stringToNumber. rewrite (trim_printable _ Hs), Hp.
    destruct (renderThousandths k); [discriminate Hp|reflexivity].
Qed.

Lemma round3_renderThousandths k :
  (- maxThousandths <= k <= maxThousandths)%Z ->
  round3 (VNum (parseFloat (renderThousandths k))) = Some (renderThousandths k)
  /\ round3 (VStr (renderThousandths k)) = Some (renderThousandths k).
Proof.
  intros Hk. destruct (renderThousandths_number k Hk) as (Hp & Hn & Hf & Hr).
  unfold round3. cbn [toNumber]. rewrite Hp, Hn, Hf. cbn [negb].
  rewrite Hr, (rendersThousandths_ok k Hk). split; reflexivity.
Qed.

Section Idempotence.

Variable parseHost : bool -> string -> option string.

Lemma normalizedString_shape L G zoom :
  normalizedString L G zoom
  = "wplace.live" ++ "/?" ++ "lat=" ++ L ++ "&lng=" ++ G ++ zoomSuffix zoom.
Proof. reflexivity. Qed.

Lemma querySafe_queryChars s : querySafe s = true -> allChars queryChar s = true.
Proof.
  rewrite querySafe_allChars. apply allChars_impl, querySafeChar_queryChar.
Qed.

Lemma normalized_query_chars L G zoom :
  querySafe L = true -> querySafe G = true -> zoomOk zoom = true ->
  allChars queryChar ("lat=" ++ L ++ "&lng=" ++ G ++ zoomSuffix zoom) = true.
Proof.
  intros HL HG Hz.
  change ("lat=" ++ L ++ "&lng=" ++ G ++ zoomSuffix zoom)
    with ("lat=" ++ (L ++ ("&lng=" ++ (G ++ zoomSuffix zoom)))).
  rewrite !allChars_app, (querySafe_queryChars L HL), (querySafe_queryChars G HG).
  destruct zoom as [z|]; simpl in Hz |- *; [|reflexivity].
  apply andb_true_iff in Hz as [_ Hz].
  rewrite (querySafe_queryChars z Hz). reflexivity.
Qed.

(** A Normalized String whose coordinate texts are reproduced by
    [parseFloat] and [round3], and whose zoom is made of harmless characters,
    is a fixed point of the extractor. *)
Lemma extract_normalized_fixed L G zoom h :
  parseHost false "wplace.live" = Some h ->
  querySafe L = true -> querySafe G = true -> zoomOk zoom = true ->
  round3 (VNum (parseFloat L)) = Some L ->
  round3 (VNum (parseFloat G)) = Some G ->
  extractAndFormatUrl parseHost (normalizedString L G zoom)
  = Some (normalizedString L G zoom).
Proof.
  intros Hh HL HG Hz FL FG.
  pose proof (normalized_query_chars L G zoom HL HG Hz) as Hq.
  unfold extractAndFormatUrl.
  rewrite normalizedString_shape.
  rewrite reUrlMatch_domain.
  2:{ change (allChars tailChar ("/?" ++ "lat=" ++ L ++ "&lng=" ++ G ++ zoomSuffix zoom))
        with (allChars tailChar ("lat=" ++ L ++ "&lng=" ++ G ++ zoomSuffix zoom)).
      revert Hq. apply allChars_impl, queryChar_tailChar. }
  change (truthy ("wplace.live" ++ "/?" ++ "lat=" ++ L ++ "&lng=" ++ G ++ zoomSuffix zoom))
    with true.
  cbn [negb].
  change (structuredUrlString
            ("wplace.live" ++ "/?" ++ "lat=" ++ L ++ "&lng=" ++ G ++ zoomSuffix zoom))
    with ("https://wplace.live/?" ++ ("lat=" ++ L ++ "&lng=" ++ G ++ zoomSuffix zoom)).
  rewrite (parseURL_normalized parseHost _ Hq), Hh.
  cbn [option_map]. unfold searchParams. cbn [urlQuery].
  rewrite (parseUrlencoded_normalized L G zoom HL HG Hz).
  exact (formatStructured_normalized L G zoom Hz FL FG).
Qed.


End Idempotence.



(** *** The two paths of the extractor *)

Lemma reUrlMatch_truthy text m : reUrlMatch text = Some m -> truthy text = true.
Proof. destruct text; [discriminate|reflexivity]. Qed.


Section Paths.

Variable parseHost : bool -> string -> option string.


Lemma extract_fallback text matched :
  reUrlMatch text = Some matched ->
  parseURL parseHost (structuredUrlString matched) = None ->
  extractAndFormatUrl parseHost text = extractFallback matched.
Proof.
  intros Hm Hu. unfold extractAndFormatUrl.
  rewrite (reUrlMatch_truthy _ _ Hm), Hm, Hu. reflexivity.
Qed.







(** When neither parse succeeds, [normalizeAndRoundUrl] returns the candidate
    without its protocol (and without two leading slashes). *)
Lemma normalize_degrades raw :
  truthy raw = true ->
  parseURL parseHost (if testProtocolCi raw then raw else "https://" ++ raw) = None ->
  matchLatLng (removeProtocol true raw) = None ->
  normalizeAndRoundUrl parseHost raw = Some (removeTwoSlashes (removeProtocol true raw)).
Proof.
  intros Ht Hu Hm. unfold normalizeAndRoundUrl. rewrite Ht, Hu, Hm. reflexivity.
Qed.

End Paths.







(** *** The examples of the extractor *)

Section Examples.

Variable parseHost : bool -> string -> option string.

Lemma extract_query q :
  allChars queryChar q = true ->
  extractAndFormatUrl parseHost ("wplace.live/?" ++ q)
  = match parseHost false "wplace.live" with
    | Some _ => formatStructured (parseUrlencoded q)
    | None => extractFallback ("wplace.live/?" ++ q)
    end.
Proof.
  intros Hq. unfold extractAndFormatUrl.
  change ("wplace.live/?" ++ q) with ("wplace.live" ++ "/?" ++ q).
  rewrite reUrlMatch_domain.
  2:{ change (allChars tailChar ("/?" ++ q)) with (allChars tailChar q).
      revert Hq. apply allChars_impl, queryChar_tailChar. }
  change (truthy ("wplace.live" ++ "/?" ++ q)) with true. cbn [negb].
  change (structuredUrlString ("wplace.live" ++ "/?" ++ q))
    with ("https://wplace.live/?" ++ q).
  rewrite (parseURL_normalized parseHost q Hq).
  destruct (parseHost false "wplace.live"); reflexivity.
Qed.

Lemma reUrlMatch_falsy text : truthy text = false -> reUrlMatch text = None.
Proof. destruct text; [reflexivity|discriminate]. Qed.

(** C6.  On the text
    "visit https://wplace.live/?lat=12.345678&lng=-98.7654&zoom=5 now" the
    extractor returns exactly "wplace.live/?lat=12.346&lng=-98.765&zoom=5",
    whatever the host parser. *)
Theorem extract_example :
  extractAndFormatUrl parseHost
    "visit https://wplace.live/?lat=12.345678&lng=-98.7654&zoom=5 now"
  = Some "wplace.live/?lat=12.346&lng=-98.765&zoom=5".
Proof.
  rewrite (extract_fallback parseHost _
             "https://wplace.live/?lat=12.345678&lng=-98.7654&zoom=5");
    vm_compute; reflexivity.
Qed.

(** C2.  The extractor returns [null] exactly when the text holds no
    wplace.live fragment, or the parameters it reads lack [lat] or [lng], or
    [parseFloat] makes NaN of one of them.  So "hello world" and
    "wplace.live/?lat=12.3" give [null]; but [lat=Infinity] parses to a
    Number that is not NaN, and the extractor answers the string
    "wplace.live/?lat=null&lng=2", on the fallback path as on the structured
    one. *)
Theorem extract_infinite_coordinate :
  (forall text,
      extractAndFormatUrl parseHost text = None
      <-> match reUrlMatch text with
          | None => True
          | Some matched =>
              match extractParams parseHost matched with
              | None => True
              | Some params => coordinateMissing params = true
              end
          end)
  /\ extractAndFormatUrl parseHost "https://wplace.live/?lat=Infinity&lng=2"
     = Some "wplace.live/?lat=null&lng=2"
  /\ extractAndFormatUrl parseHost "wplace.live/?lat=Infinity&lng=2"
     = Some "wplace.live/?lat=null&lng=2"
  /\ extractAndFormatUrl parseHost "hello world" = None
  /\ extractAndFormatUrl parseHost "wplace.live/?lat=12.3" = None.
Proof.
  split.
  { intros text. unfold extractAndFormatUrl, extractParams.
    destruct (truthy text) eqn:Ht; cbn [negb].
    2:{ rewrite (reUrlMatch_falsy text Ht). tauto. }
    destruct (reUrlMatch text) as [matched|]; [|tauto].
    destruct (parseURL parseHost (structuredUrlString matched)) as [url|].
    - unfold formatStructured, coordinateMissing.
      destruct (paramHas (searchParams url) "lat"), (paramHas (searchParams url) "lng"),
        (isNaN (parseFloatParam (searchParams url) "lat")),
        (isNaN (parseFloatParam (searchParams url) "lng"));
        cbn [negb orb]; split; congruence.
    - unfold extractFallback.
      destruct (afterFirstQuestionMark (removeWww (removeProtocol true matched)))
        as [qs|]; cbn [option_map]; [|tauto].
      unfold formatFallback, coordinateMissing.
      destruct (paramHas (newURLSearchParams qs) "lat"),
        (paramHas (newURLSearchParams qs) "lng"),
        (isNaN (parseFloatParam (newURLSearchParams qs) "lat")),
        (isNaN (parseFloatParam (newURLSearchParams qs) "lng"));
        cbn [negb orb andb]; split; congruence. }
  split.
  { rewrite (extract_fallback parseHost _ "https://wplace.live/?lat=Infinity&lng=2");
      vm_compute; reflexivity. }
  split.
  { change "wplace.live/?lat=Infinity&lng=2" with ("wplace.live/?" ++ "lat=Infinity&lng=2").
    rewrite extract_query by (vm_compute; reflexivity).
    destruct (parseHost false "wplace.live"); vm_compute; reflexivity. }
  split.
  { vm_compute. reflexivity. }
  change "wplace.live/?lat=12.3" with ("wplace.live/?" ++ "lat=12.3").
  rewrite extract_query by (vm_compute; reflexivity).
  destruct (parseHost false "wplace.live"); vm_compute; reflexivity.
Qed.

End Examples.

(** *** The Sync Engine *)

(** C8.  No-op on equality: when the current content of a target node
    (its value, else its [value] attribute, else its inner text, else its text
    content, trimmed) already equals the Normalized String,
    [applyFormattedIfNeeded] returns before it touches anything: the nodes,
    the debounce map and the pending timers, that of the node included, are
    what they were and no timer identifier is consumed. *)
Theorem apply_noop_on_equality (st : page) (el : nat) (formatted : string) (n : node) :
  nodes st !! el = Some n ->
  currentContent n = formatted ->
  applyFormattedIfNeeded el formatted st = st.
Proof.
  intros Hn Hc. unfold applyFormattedIfNeeded. rewrite Hn.
  destruct (negb (truthy formatted)); [reflexivity|].
  rewrite Hc, String.eqb_refl. reflexivity.
Qed.






Lemma apply_noop_on_equality_witness :
  currentContent (inputNode "  wplace.live/?lat=1&lng=2 ") = "wplace.live/?lat=1&lng=2"
  /\ applyFormattedIfNeeded 0 "wplace.live/?lat=1&lng=2"
       (pendingPage "  wplace.live/?lat=1&lng=2 " "wplace.live/?lat=1&lng=2")
     = pendingPage "  wplace.live/?lat=1&lng=2 " "wplace.live/?lat=1&lng=2".
Proof.
  split; [vm_compute; reflexivity|].
  apply (apply_noop_on_equality _ 0 _ (inputNode "  wplace.live/?lat=1&lng=2 ")).
  - apply lookup_singleton_eq.
  - vm_compute. reflexivity.
Defined.



(** *** Candidates and their normalization *)

Lemma containsToken_unfold s :
  containsToken s = match stripPrefixCi "wplace.live" s with
                    | Some _ => true
                    | None => match s with
                              | "" => false
                              | String _ r => containsToken r
                              end
                    end.
Proof. destruct s; reflexivity. Qed.

Lemma stripPrefixCi_length p s r :
  stripPrefixCi p s = Some r -> String.length s = String.length p + String.length r.
Proof.
  revert s. induction p as [|a p IH]; intros s; simpl.
  - intros [= ->]. reflexivity.
  - destruct s as [|b s]; [discriminate|].
    destruct (eqci a b); [|discriminate].
    intros H. simpl. rewrite (IH _ H). reflexivity.
Qed.

Lemma stripPrefix_eq p s r : stripPrefix p s = Some r -> s = p ++ r.
Proof.
  revert s. induction p as [|a p IH]; intros s; simpl.
  - intros [= ->]. reflexivity.
  - destruct s as [|b s]; [discriminate|].
    destruct (Ascii.eqb_spec a b) as [->|]; [|discriminate].
    intros H. rewrite (IH _ H). reflexivity.
Qed.

Lemma containsToken_length s : containsToken s = true -> 11 <= String.length s.
Proof.
  induction s as [|c r IH]; rewrite containsToken_unfold.
  - discriminate.
  - destruct (stripPrefixCi "wplace.live" (String c r)) as [t|] eqn:E.
    + intros _. rewrite (stripPrefixCi_length _ _ _ E). simpl. lia.
    + intros H. specialize (IH H). simpl. lia.
Qed.

Lemma containsToken_app a m :
  containsToken m = true -> containsToken (a ++ m) = true.
Proof.
  intros H. induction a as [|c a IH]; [exact H|].
  change (String c a ++ m) with (String c (a ++ m)).
  rewrite containsToken_unfold, IH.
  destruct (stripPrefixCi "wplace.live" (String c (a ++ m))); reflexivity.
Qed.

Lemma stripPrefixCi_take p s r t :
  stripPrefixCi p s = Some r ->
  stripPrefixCi p (takeN (String.length p) s ++ t) = Some t.
Proof.
  revert s. induction p as [|a p IH]; intros s; simpl.
  - intros _. destruct s; reflexivity.
  - destruct s as [|b s]; [discriminate|].
    destruct (eqci a b) eqn:E; [|discriminate].
    intros H. simpl. rewrite E. apply (IH _ H).
Qed.

Lemma matchDomainTail_token s m : matchDomainTail s = Some m -> containsToken m = true.
Proof.
  unfold matchDomainTail.
  destruct (stripPrefixCi "wplace.live" s) as [r|] eqn:E; [|discriminate].
  intros H%(inj Some). subst m. rewrite containsToken_unfold.
  pose proof (stripPrefixCi_take "wplace.live" s r (urlTail r) E) as X.
  change (String.length "wplace.live") with 11 in X. rewrite X. reflexivity.
Qed.

Lemma matchWwwDomainTail_token s m :
  matchWwwDomainTail s = Some m -> containsToken m = true.
Proof.
  unfold matchWwwDomainTail.
  destruct (stripPrefixCi "www." s) as [r|].
  - destruct (matchDomainTail r) as [m'|] eqn:E; cbn [option_map].
    + intros [= <-]. apply containsToken_app, (matchDomainTail_token _ _ E).
    + apply matchDomainTail_token.
  - apply matchDomainTail_token.
Qed.

Lemma matchUrlAt_token s m : matchUrlAt s = Some m -> containsToken m = true.
Proof.
  unfold matchUrlAt.
  destruct (matchProtocol true s) as [r|].
  - destruct (matchWwwDomainTail r) as [m'|] eqn:E; cbn [option_map].
    + intros [= <-]. apply containsToken_app, (matchWwwDomainTail_token _ _ E).
    + apply matchWwwDomainTail_token.
  - apply matchWwwDomainTail_token.
Qed.

(** A match of the script's expression contains the domain token. *)
Lemma reUrlMatch_token text m : reUrlMatch text = Some m -> containsToken m = true.
Proof.
  induction text as [|c r IH]; rewrite reUrlMatch_unfold.
  - destruct (matchUrlAt "") eqn:E; [|discriminate].
    intros [= <-]. apply (matchUrlAt_token _ _ E).
  - destruct (matchUrlAt (String c r)) eqn:E.
    + intros [= <-]. apply (matchUrlAt_token _ _ E).
    + exact IH.
Qed.

Lemma firstWplaceUrl_token texts raw :
  firstWplaceUrl texts = Some raw -> containsToken raw = true.
Proof.
  induction texts as [|t r IH]; simpl; [discriminate|].
  unfold extractWplaceUrl.
  destruct (negb (truthy t)); [exact IH|].
  destruct (reUrlMatch t) as [u|] eqn:E; [|exact IH].
  destruct (truthy u); [|exact IH].
  intros [= <-]. apply (reUrlMatch_token _ _ E).
Qed.

(** The only strings [findCandidateString] returns contain the token. *)
Lemma findCandidateString_token p raw :
  findCandidateString p = Some raw -> containsToken raw = true.
Proof.
  unfold findCandidateString.
  destruct (firstWplaceUrl (firstn 4 (ancestorTexts p))) eqn:E1.
  { intros [= <-]. apply (firstWplaceUrl_token _ _ E1). }
  destruct (firstWplaceUrl (containerTexts p)) eqn:E2.
  { intros [= <-]. apply (firstWplaceUrl_token _ _ E2). }
  apply firstWplaceUrl_token.
Qed.

Lemma matchProtocol_length ci s r :
  matchProtocol ci s = Some r -> String.length s <= String.length r + 8.
Proof.
  unfold matchProtocol.
  assert (forall t, (if ci then stripPrefixCi "http" s else stripPrefix "http" s) = Some t ->
                    String.length s = 4 + String.length t) as Hp.
  { intros t. destruct ci; intros H.
    - apply (stripPrefixCi_length "http"), H.
    - rewrite (stripPrefix_eq _ _ _ H). reflexivity. }
  destruct (if ci then stripPrefixCi "http" s else stripPrefix "http" s) as [t|];
    [|discriminate].
  specialize (Hp t eq_refl).
  assert (forall x, stripPrefix "://" x = Some r -> String.length x = 3 + String.length r)
    as Hs by (intros x H; rewrite (stripPrefix_eq _ _ _ H); reflexivity).
  destruct t as [|c t'].
  - intros H. apply Hs in H. simpl in *. lia.
  - destruct (if ci then eqci c "s" else Ascii.eqb c "s").
    + destruct (stripPrefix "://" t') eqn:E.
      * intros [= <-]. apply Hs in E. simpl in *. lia.
      * intros H. apply Hs in H. simpl in *. lia.
    + intros H. apply Hs in H. simpl in *. lia.
Qed.

Lemma removeProtocol_length ci s :
  String.length s <= String.length (removeProtocol ci s) + 8.
Proof.
  unfold removeProtocol. destruct (matchProtocol ci s) eqn:E.
  - apply (matchProtocol_length _ _ _ E).
  - lia.
Qed.

Lemma removeTwoSlashes_length s :
  String.length s <= String.length (removeTwoSlashes s) + 2.
Proof.
  unfold removeTwoSlashes. destruct (stripPrefix "//" s) eqn:E.
  - rewrite (stripPrefix_eq _ _ _ E). simpl. lia.
  - lia.
Qed.

Lemma nonempty_length s : 0 < String.length s -> s <> "".
Proof. destruct s; simpl; [lia|discriminate]. Qed.

Lemma linkTemplate_nonempty latS lngS z : linkTemplate latS lngS z <> "".
Proof. discriminate. Qed.

Lemma eqci_h b : eqci "h" b = true -> b = "h"%char \/ b = "H"%char.
Proof. ascii_cases b; vm_compute; intros; try discriminate; tauto. Qed.

Lemma eqci_t b : eqci "t" b = true -> b = "t"%char \/ b = "T"%char.
Proof. ascii_cases b; vm_compute; intros; try discriminate; tauto. Qed.

Lemma eqci_p b : eqci "p" b = true -> b = "p"%char \/ b = "P"%char.
Proof. ascii_cases b; vm_compute; intros; try discriminate; tauto. Qed.

Lemma eqci_s b : eqci b "s" = true -> b = "s"%char \/ b = "S"%char.
Proof. ascii_cases b; vm_compute; intros; try discriminate; tauto. Qed.

(** A string that begins with [http://] or [https://], letters of either
    case, has the scheme [http] or [https]. *)
Lemma stripPrefixCi_cons a p s r :
  stripPrefixCi (String a p) s = Some r ->
  exists b s', s = String b s' /\ eqci a b = true /\ stripPrefixCi p s' = Some r.
Proof.
  destruct s as [|b s']; simpl; [discriminate|].
  destruct (eqci a b) eqn:E; [|discriminate].
  intros H. exists b, s'. repeat split; assumption.
Qed.

Lemma protocol_scheme raw r :
  matchProtocol true raw = Some r ->
  exists sch rest, parseScheme (urlPreprocess raw) = Some (sch, rest) /\ httpScheme sch.
Proof.
  unfold matchProtocol.
  destruct (stripPrefixCi "http" raw) as [r4|] eqn:E; [|discriminate].
  apply stripPrefixCi_cons in E as (b1 & s1 & -> & E1 & E).
  apply stripPrefixCi_cons in E as (b2 & s2 & -> & E2 & E).
  apply stripPrefixCi_cons in E as (b3 & s3 & -> & E3 & E).
  apply stripPrefixCi_cons in E as (b4 & s4 & -> & E4 & E).
  simpl in E. injection E as ->.
  assert (forall x, stripPrefix "://" x = Some r -> x = "://" ++ r) as Hs
    by (intros x; apply stripPrefix_eq).
  intros H.
  assert ((exists b5, eqci b5 "s" = true /\ r4 = String b5 ("://" ++ r))
          \/ r4 = "://" ++ r) as [(b5 & E5 & ->) | ->].
  { destruct r4 as [|b5 r5]; [discriminate|].
    destruct (eqci b5 "s") eqn:E5.
    - destruct (stripPrefix "://" r5) eqn:E6.
      + left. exists b5. split; [exact E5|].
        injection H as <-. rewrite (stripPrefix_eq _ _ _ E6). reflexivity.
      + right. apply Hs, H.
    - right. apply Hs, H. }
  - destruct (eqci_h _ E1) as [-> | ->], (eqci_t _ E2) as [-> | ->],
      (eqci_t _ E3) as [-> | ->], (eqci_p _ E4) as [-> | ->],
      (eqci_s _ E5) as [-> | ->];
      (eexists "https", _; split; [reflexivity | right; reflexivity]).
  - destruct (eqci_h _ E1) as [-> | ->], (eqci_t _ E2) as [-> | ->],
      (eqci_t _ E3) as [-> | ->], (eqci_p _ E4) as [-> | ->];
      (eexists "http", _; split; [reflexivity | left; reflexivity]).
Qed.

Lemma https_prefix_scheme raw :
  exists sch rest,
    parseScheme (urlPreprocess ("https://" ++ raw)) = Some (sch, rest) /\ httpScheme sch.
Proof. eexists "https", _. split; [reflexivity | right; reflexivity]. Qed.

Section SpecialUrls.

Variable parseHost : bool -> string -> option string.

(** A parsed URL of scheme [http] or [https] has a host, and it came out of
    the host parser. *)
Lemma parseURL_http_host s u sch rest :
  parseScheme (urlPreprocess s) = Some (sch, rest) ->
  httpScheme sch ->
  parseURL parseHost s = Some u ->
  exists b h, parseHost false b = Some h /\ urlHost u = Some h.
Proof.
  intros Hs Hsch. unfold parseURL. rewrite Hs.
  assert (String.eqb sch "file" = false /\ isSpecial sch = true) as [-> ->]
    by (destruct Hsch as [-> | ->]; split; reflexivity).
  unfold parseAuthorityOn.
  destruct (span (endsAuthority true) (skipSlashes rest)) as [auth after].
  destruct (match afterLastAt auth with
            | Some t => if isEmpty t then None else Some t
            | None => Some auth
            end) as [hp|]; [|discriminate].
  destruct (splitHostPort false hp) as [hst p].
  destruct (isEmpty hst && _); [discriminate|].
  destruct (parseHost (negb true) hst) as [host|] eqn:Hh; [|discriminate].
  destruct (match p with Some pt => parsePort sch pt | None => Some None end)
    as [port|]; [|discriminate].
  destruct (span isQueryOrFragmentStart after) as [pathText qf].
  destruct (parseQueryFragment true qf) as [q f].
  intros [= <-]. exists hst, host. split; [exact Hh | reflexivity].
Qed.

Lemma removeLeadingSlashes_host c t :
  c <> "/"%char -> removeLeadingSlashes (String c t) = String c t.
Proof.
  intros Hc. simpl. destruct (Ascii.eqb_spec c "/") as [->|]; [contradiction|].
  revert Hc. ascii_cases c; try reflexivity. contradiction.
Qed.

(** Every candidate string is normalized to a string that is not empty. *)
Lemma normalize_nonempty raw :
  hostParserOk parseHost ->
  containsToken raw = true ->
  exists r, normalizeAndRoundUrl parseHost raw = Some r /\ r <> "".
Proof.
  intros Hok Htok.
  pose proof (containsToken_length _ Htok) as Hlen.
  unfold normalizeAndRoundUrl.
  assert (truthy raw = true) as -> by (destruct raw; [simpl in Hlen; lia | reflexivity]).
  cbn [negb].
  set (urlStr := if testProtocolCi raw then raw else "https://" ++ raw).
  assert (exists sch rest,
             parseScheme (urlPreprocess urlStr) = Some (sch, rest) /\ httpScheme sch)
    as (sch & rest & Hs & Hsch).
  { subst urlStr. unfold testProtocolCi.
    destruct (matchProtocol true raw) as [r|] eqn:E.
    - apply (protocol_scheme _ _ E).
    - apply https_prefix_scheme. }
  destruct (parseURL parseHost urlStr) as [u|] eqn:Hu.
  - destruct (paramHas (searchParams u) "lat" && paramHas (searchParams u) "lng").
    + eexists. split; [reflexivity | apply linkTemplate_nonempty].
    + eexists. split; [reflexivity|].
      destruct (parseURL_http_host _ _ _ _ Hs Hsch Hu) as (b & h & Hh & Hhost).
      destruct (Hok _ _ Hh) as (c & t & -> & Hc).
      unfold hostOf. rewrite Hhost.
      destruct (urlPort u); cbn [String.append];
        rewrite (removeLeadingSlashes_host _ _ Hc); discriminate.
  - destruct (matchLatLng (removeProtocol true raw)) as [[g1 g2]|].
    + eexists. split; [reflexivity | apply linkTemplate_nonempty].
    + eexists. split; [reflexivity|].
      apply nonempty_length.
      pose proof (removeProtocol_length true raw).
      pose proof (removeTwoSlashes_length (removeProtocol true raw)).
      lia.
Qed.

(** C10.  Every string that contains the target-domain token, the only
    strings [findCandidateString] can return, is normalized by
    [normalizeAndRoundUrl] to a string that is neither [null] nor empty, for
    any host parser whose serialized hosts are not empty and do not begin
    with a slash.  Hence the click handler never takes its second failure
    branch, and it announces a failure, copying the failure text instead of a
    link, exactly when no candidate string is found. *)
Theorem second_failure_unreachable :
  hostParserOk parseHost ->
  (forall raw, containsToken raw = true ->
               exists r, normalizeAndRoundUrl parseHost raw = Some r /\ r <> "")
  /\ (forall p raw, findCandidateString p = Some raw -> containsToken raw = true)
  /\ (forall p, onClick parseHost p <> NoNormalized)
  /\ (forall p, onClick parseHost p = NoCandidate <-> findCandidateString p = None).
Proof.
  intros Hok.
  assert (forall p raw, findCandidateString p = Some raw ->
                        exists r, onClick parseHost p = CopyLink r) as Hclick.
  { intros p raw Hf. unfold onClick. rewrite Hf.
    destruct (normalize_nonempty raw Hok (findCandidateString_token _ _ Hf))
      as (r & -> & Hr).
    exists r. destruct r; [contradiction|reflexivity]. }
  split; [intros raw; apply normalize_nonempty, Hok|].
  split; [apply findCandidateString_token|].
  split.
  - intros p. destruct (findCandidateString p) as [raw|] eqn:Hf.
    + destruct (Hclick p raw Hf) as (r & ->). discriminate.
    + unfold onClick. rewrite Hf. discriminate.
  - intros p. destruct (findCandidateString p) as [raw|] eqn:Hf.
    + destruct (Hclick p raw Hf) as (r & ->). split; discriminate.
    + unfold onClick. rewrite Hf. tauto.
Qed.

End SpecialUrls.

Lemma plainHost_ok : hostParserOk plainHost.
Proof.
  intros b h. unfold plainHost.
  destruct b as [|c b]; [discriminate|]. cbn [isEmpty list_ascii_of_string forallb].
  destruct (isAlpha c || Ascii.eqb c ".") eqn:Hc; [|discriminate].
  cbn [andb]. destruct (forallb _ _); [|discriminate].
  intros [= <-]. exists (toLower c), (lowerStr b). split; [reflexivity|].
  revert Hc. ascii_cases c; vm_compute; congruence.
Qed.

Lemma second_failure_unreachable_witness :
  containsToken "http://www.wplace.live/?lat=10&lng=20" = true
  /\ exists r, normalizeAndRoundUrl plainHost "http://www.wplace.live/?lat=10&lng=20" = Some r
               /\ r <> "".
Proof.
  split; [vm_compute; reflexivity|].
  apply (second_failure_unreachable plainHost plainHost_ok).
  vm_compute. reflexivity.
Defined.

(** *** [round3] *)







(** ** Further properties of the script *)

(** *** [round3] and the two normalizers on canonical coordinates *)



Section CanonicalLinks.

Variable parseHost : bool -> string -> option string.

(** X2.  A Normalized String whose coordinates are canonical texts of
    thousandths (of at most 180000 in magnitude) and whose zoom, if any, is
    not empty and made of harmless characters is a fixed point of
    [extractAndFormatUrl], for every URL parser that accepts the host
    [wplace.live]. *)
Theorem extract_canonical_fixed (kL kG : Z) (zoom : option string) (h : string) :
  parseHost false "wplace.live" = Some h ->
  (- maxThousandths <= kL <= maxThousandths)%Z ->
  (- maxThousandths <= kG <= maxThousandths)%Z ->
  zoomOk zoom = true ->
  extractAndFormatUrl parseHost
    (normalizedString (renderThousandths kL) (renderThousandths kG) zoom)
  = Some (normalizedString (renderThousandths kL) (renderThousandths kG) zoom).
Proof.
  intros Hh HL HG Hz.
  apply (extract_normalized_fixed parseHost _ _ _ h Hh);
    auto using renderThousandths_querySafe.
  - apply (round3_renderThousandths kL HL).
  - apply (round3_renderThousandths kG HG).
Qed.

(** The click handler's normalizer on the parameters of a Normalized
    String. *)
Lemma normalize_normalized L G zoom h :
  parseHost false "wplace.live" = Some h ->
  querySafe L = true -> querySafe G = true -> zoomOk zoom = true ->
  round3 (VStr L) = Some L ->
  round3 (VStr G) = Some G ->
  normalizeAndRoundUrl parseHost (normalizedString L G zoom)
  = Some (normalizedString L G zoom).
Proof.
  intros Hh HL HG Hz FL FG.
  pose proof (normalized_query_chars L G zoom HL HG Hz) as Hq.
  unfold normalizeAndRoundUrl.
  rewrite normalizedString_shape.
  change (truthy ("wplace.live" ++ "/?" ++ "lat=" ++ L ++ "&lng=" ++ G ++ zoomSuffix zoom))
    with true.
  change (testProtocolCi
            ("wplace.live" ++ "/?" ++ "lat=" ++ L ++ "&lng=" ++ G ++ zoomSuffix zoom))
    with false.
  cbn [negb].
  change ("https://" ++ "wplace.live" ++ "/?" ++ "lat=" ++ L ++ "&lng=" ++ G ++ zoomSuffix zoom)
    with ("https://wplace.live/?" ++ ("lat=" ++ L ++ "&lng=" ++ G ++ zoomSuffix zoom)).
  rewrite (parseURL_normalized parseHost _ Hq), Hh.
  cbn [option_map]. unfold searchParams. cbn [urlQuery].
  rewrite (parseUrlencoded_normalized L G zoom HL HG Hz).
  change (paramHas (("lat", L) :: ("lng", G) :: zoomPairs zoom) "lat") with true.
  change (paramHas (("lat", L) :: ("lng", G) :: zoomPairs zoom) "lng") with true.
  change (paramGet (("lat", L) :: ("lng", G) :: zoomPairs zoom) "lat") with (Some L).
  change (paramGet (("lat", L) :: ("lng", G) :: zoomPairs zoom) "lng") with (Some G).
  change (paramGet (("lat", L) :: ("lng", G) :: zoomPairs zoom) "zoom")
    with (paramGet (zoomPairs zoom) "zoom").
  cbn [andb showNullable]. rewrite FL, FG.
  unfold normalizedString. f_equal. f_equal.
  destruct zoom as [z|]; [|reflexivity].
  simpl in Hz. apply andb_true_iff in Hz as [Hz _].
  simpl. rewrite Hz. reflexivity.
Qed.

(** X3.  On such a Normalized String the click handler's
    [normalizeAndRoundUrl] returns the string itself, as the extractor does:
    a link that is already normalized is copied unchanged. *)
Theorem normalize_canonical_fixed (kL kG : Z) (zoom : option string) (h : string) :
  parseHost false "wplace.live" = Some h ->
  (- maxThousandths <= kL <= maxThousandths)%Z ->
  (- maxThousandths <= kG <= maxThousandths)%Z ->
  zoomOk zoom = true ->
  normalizeAndRoundUrl parseHost
    (normalizedString (renderThousandths kL) (renderThousandths kG) zoom)
  = Some (normalizedString (renderThousandths kL) (renderThousandths kG) zoom)
  /\ onClick parseHost
       (mkPageTexts
          [normalizedString (renderThousandths kL) (renderThousandths kG) zoom] [] [])
     = CopyLink (normalizedString (renderThousandths kL) (renderThousandths kG) zoom).
Proof.
  intros Hh HL HG Hz.
  assert (normalizeAndRoundUrl parseHost
            (normalizedString (renderThousandths kL) (renderThousandths kG) zoom)
          = Some (normalizedString (renderThousandths kL) (renderThousandths kG) zoom))
    as E.
  { apply (normalize_normalized _ _ _ h Hh);
      auto using renderThousandths_querySafe.
    - apply (round3_renderThousandths kL HL).
    - apply (round3_renderThousandths kG HG). }
  split; [exact E|].
  set (s := normalizedString (renderThousandths kL) (renderThousandths kG) zoom) in *.
  assert (extractWplaceUrl s = Some s) as F.
  { unfold extractWplaceUrl. subst s. rewrite normalizedString_shape.
    rewrite reUrlMatch_domain; [reflexivity|].
    change (allChars tailChar ("/?" ++ "lat=" ++ renderThousandths kL ++ "&lng="
                               ++ renderThousandths kG ++ zoomSuffix zoom))
      with (allChars tailChar ("lat=" ++ renderThousandths kL ++ "&lng="
                               ++ renderThousandths kG ++ zoomSuffix zoom)).
    apply (allChars_impl queryChar tailChar _ queryChar_tailChar).
    apply normalized_query_chars; auto using renderThousandths_querySafe. }
  assert (truthy s = true) as Ht by reflexivity.
  unfold onClick, findCandidateString.
  cbn [ancestorTexts firstn firstWplaceUrl]. rewrite F, Ht, E, Ht. reflexivity.
Qed.

End CanonicalLinks.

Lemma extract_canonical_fixed_witness :
  extractAndFormatUrl plainHost
    (normalizedString (renderThousandths 12346) (renderThousandths (-98765)) (Some "5"))
  = Some (normalizedString (renderThousandths 12346) (renderThousandths (-98765)) (Some "5")).
Proof.
  apply (extract_canonical_fixed plainHost 12346 (-98765) (Some "5") "wplace.live").
  - reflexivity.
  - unfold maxThousandths. lia.
  - unfold maxThousandths. lia.
  - reflexivity.
Defined.

Lemma normalize_canonical_fixed_witness :
  normalizeAndRoundUrl plainHost
    (normalizedString (renderThousandths 12346) (renderThousandths (-98765)) None)
  = Some (normalizedString (renderThousandths 12346) (renderThousandths (-98765)) None)
  /\ onClick plainHost
       (mkPageTexts
          [normalizedString (renderThousandths 12346) (renderThousandths (-98765)) None]
          [] [])
     = CopyLink (normalizedString (renderThousandths 12346) (renderThousandths (-98765)) None).
Proof.
  apply (normalize_canonical_fixed plainHost 12346 (-98765) None "wplace.live").
  - reflexivity.
  - unfold maxThousandths. lia.
  - unfold maxThousandths. lia.
  - reflexivity.
Defined.

(** *** The expression [(https?:\/\/)?(www\.)?wplace\.live[^\s'Q]*] *)

Lemma skipWs_app a b r : skipWs a = Some r -> skipWs (a ++ b) = Some (r ++ b).
Proof.
  destruct a as [|c1 a]; [discriminate|].
  intros H.
  ascii_cases c1; cbn in H |- *; try discriminate H;
    try (injection H as <-; reflexivity);
    (destruct a as [|c2 a]; [discriminate H|]);
    ascii_cases c2; cbn in H |- *; try discriminate H;
    try (injection H as <-; reflexivity);
    (destruct a as [|c3 a]; [discriminate H|]);
    ascii_cases c3; cbn in H |- *; try discriminate H;
    try (injection H as <-; reflexivity).
Qed.

Lemma startsWs_app a b : startsWs a = true -> startsWs (a ++ b) = true.
Proof.
  unfold startsWs. destruct (skipWs a) as [r|] eqn:E; [|discriminate].
  rewrite (skipWs_app a b r E). reflexivity.
Qed.

(** The tail stops where white space or a quote begins, or at the end. *)
Lemma urlTail_split r : exists post, r = urlTail r ++ post /\ urlTail post = "".
Proof.
  induction r as [|c r (post & E & Hp)].
  - exists "". split; reflexivity.
  - cbn [urlTail].
    destruct (startsWs (String c r) || Ascii.eqb c aposChar || Ascii.eqb c quoteChar) eqn:B.
    + exists (String c r). split; [reflexivity|]. cbn [urlTail]. rewrite B. reflexivity.
    + exists post. split; [|exact Hp].
      change (String c (urlTail r) ++ post) with (String c (urlTail r ++ post)).
      rewrite <- E. reflexivity.
Qed.

Lemma urlTail_idem r : urlTail (urlTail r) = urlTail r.
Proof.
  induction r as [|c r IH]; [reflexivity|].
  cbn [urlTail].
  destruct (startsWs (String c r) || Ascii.eqb c aposChar || Ascii.eqb c quoteChar) eqn:B;
    [reflexivity|].
  cbn [urlTail]. rewrite IH.
  apply orb_false_iff in B as [B Hq]. apply orb_false_iff in B as [Hw Ha].
  rewrite Ha, Hq.
  destruct (startsWs (String c (urlTail r))) eqn:W; [|reflexivity].
  destruct (urlTail_split r) as (post & E & _).
  apply (startsWs_app _ post) in W.
  change (String c (urlTail r) ++ post) with (String c (urlTail r ++ post)) in W.
  rewrite <- E in W. congruence.
Qed.

Lemma urlTail_plain a b : allChars tailChar a = true -> urlTail (a ++ b) = a ++ urlTail b.
Proof.
  induction a as [|c a IH]; [reflexivity|].
  intros H. simpl in H. apply andb_true_iff in H as [Hc Ha].
  change (String c a ++ b) with (String c (a ++ b)).
  cbn [urlTail].
  rewrite (startsWs_printable c (a ++ b) (tailChar_printable _ Hc)).
  unfold tailChar in Hc. apply andb_true_iff in Hc as [Hc Hap].
  apply andb_true_iff in Hc as [_ Hq]. apply negb_true_iff in Hap, Hq.
  rewrite Hap, Hq. cbn [orb]. rewrite (IH Ha). reflexivity.
Qed.

Lemma tailChar_toLower c : tailChar (toLower c) = tailChar c.
Proof. ascii_cases c; vm_compute; reflexivity. Qed.

Lemma eqci_tailChar a b : eqci a b = true -> tailChar b = tailChar a.
Proof.
  unfold eqci. intros H%Ascii.eqb_eq.
  rewrite <- (tailChar_toLower a), <- (tailChar_toLower b), H. reflexivity.
Qed.

Lemma stripPrefixCi_split p s r :
  stripPrefixCi p s = Some r -> s = takeN (String.length p) s ++ r.
Proof.
  revert s. induction p as [|a p IH]; intros s; simpl.
  - intros [= ->]. destruct r; reflexivity.
  - destruct s as [|b s]; [discriminate|].
    destruct (eqci a b); [|discriminate].
    intros H. simpl. rewrite <- (IH _ H). reflexivity.
Qed.

Lemma stripPrefixCi_plain p s r :
  allChars tailChar p = true -> stripPrefixCi p s = Some r ->
  allChars tailChar (takeN (String.length p) s) = true.
Proof.
  revert s. induction p as [|a p IH]; intros s Hp; simpl.
  - intros _. destruct s; reflexivity.
  - destruct s as [|b s]; [discriminate|].
    destruct (eqci a b) eqn:E; [|discriminate].
    simpl in Hp. apply andb_true_iff in Hp as [Ha Hp].
    intros H. simpl. rewrite (eqci_tailChar a b E), Ha. apply (IH _ Hp H).
Qed.

Lemma stripPrefixCi_head a p s r :
  stripPrefixCi (String a p) s = Some r ->
  exists b s', s = String b s' /\ eqci a b = true.
Proof.
  destruct s as [|b s']; [discriminate|]. simpl.
  destruct (eqci a b) eqn:E; [|discriminate]. eauto.
Qed.

(** What a match of [https?:\/\/] at the head looks like. *)
Lemma matchProtocol_shape s r :
  matchProtocol true s = Some r ->
  exists P, s = P ++ r
            /\ allChars tailChar P = true
            /\ (forall x, matchProtocol true (P ++ x) = Some x)
            /\ (exists c P', P = String c P' /\ eqci "h" c = true).
Proof.
  unfold matchProtocol.
  destruct (stripPrefixCi "http" s) as [t|] eqn:E; [|discriminate].
  pose proof (stripPrefixCi_split _ _ _ E) as Hs.
  pose proof (stripPrefixCi_plain "http" _ _ eq_refl E) as Hp.
  pose proof (fun x => stripPrefixCi_take "http" s t x E) as Ht.
  destruct (stripPrefixCi_head _ _ _ _ E) as (c0 & s0 & Es & Ec).
  change (String.length "http") with 4 in *.
  set (H4 := takeN 4 s) in *.
  assert (exists c P', H4 = String c P' /\ eqci "h" c = true) as Hh
    by (subst H4; rewrite Es; simpl; eauto).
  assert (forall rest, stripPrefix "://" rest = Some r ->
            allChars tailChar (H4 ++ "://") = true
            /\ forall x, stripPrefix "://" ("://" ++ x) = Some x) as Hc.
  { intros rest _. rewrite allChars_app, Hp. split; reflexivity. }
  destruct t as [|c t'].
  - discriminate.
  - destruct (eqci c "s") eqn:Cs.
    + destruct (stripPrefix "://" t') as [rest|] eqn:E1.
      * intros [= ->]. apply stripPrefix_eq in E1.
        exists (H4 ++ String c "://").
        split; [rewrite Hs, E1, append_assoc; reflexivity|].
        split.
        { rewrite allChars_app, Hp. cbn [allChars].
          rewrite <- (eqci_tailChar c "s" Cs). reflexivity. }
        split.
        { intros x. rewrite append_assoc, Ht.
          change (String c "://" ++ x) with (String c ("://" ++ x)).
          cbv iota. rewrite Cs. reflexivity. }
        destruct Hh as (c1 & P' & -> & Hc1). exists c1, (P' ++ String c "://").
        split; [reflexivity|exact Hc1].
      * intros E2. apply stripPrefix_eq in E2. discriminate E2 || idtac.
        (* the text after [http] begins with [s] and with [:] *)
        exfalso. injection E2 as -> _. discriminate Cs.
    + intros E2. apply stripPrefix_eq in E2.
      exists (H4 ++ "://").
      split; [rewrite Hs, E2, append_assoc; reflexivity|].
      split; [rewrite allChars_app, Hp; reflexivity|].
      split.
      { intros x. rewrite append_assoc, Ht. reflexivity. }
      destruct Hh as (c1 & P' & -> & Hc1). exists c1, (P' ++ "://").
      split; [reflexivity|exact Hc1].
Qed.

Lemma eqci_h_w c : eqci "h" c = true -> eqci "w" c = true -> False.
Proof.
  unfold eqci. intros H1%Ascii.eqb_eq H2%Ascii.eqb_eq. rewrite <- H1 in H2. discriminate H2.
Qed.

Lemma eqci_p_w c : eqci "p" c = true -> eqci "w" c = true -> False.
Proof.
  unfold eqci. intros H1%Ascii.eqb_eq H2%Ascii.eqb_eq. rewrite <- H1 in H2. discriminate H2.
Qed.

Lemma matchProtocol_w c s : eqci "w" c = true -> matchProtocol true (String c s) = None.
Proof.
  intros Hw. unfold matchProtocol.
  destruct (stripPrefixCi "http" (String c s)) as [t|] eqn:E; [|reflexivity].
  destruct (stripPrefixCi_head _ _ _ _ E) as (b & s' & [= <- <-] & Hb).
  destruct (eqci_h_w _ Hb Hw).
Qed.

(** A match of [wplace\.live[^\s'Q]*] at the head. *)
Lemma matchDomainTail_shape s m :
  matchDomainTail s = Some m ->
  (exists post, s = m ++ post /\ urlTail post = "")
  /\ urlTail m = m
  /\ matchDomainTail m = Some m
  /\ (exists c m', m = String c m' /\ eqci "w" c = true)
  /\ stripPrefixCi "www." m = None.
Proof.
  unfold matchDomainTail.
  destruct (stripPrefixCi "wplace.live" s) as [r|] eqn:E; [|discriminate].
  intros [= <-].
  pose proof (stripPrefixCi_split _ _ _ E) as Hs.
  pose proof (stripPrefixCi_plain "wplace.live" _ _ eq_refl E) as Hp.
  pose proof (fun x => stripPrefixCi_take "wplace.live" s r x E) as Ht.
  change (String.length "wplace.live") with 11 in *.
  set (D := takeN 11 s) in *.
  split.
  { destruct (urlTail_split r) as (post & Er & Hpost). exists post.
    split; [|exact Hpost]. rewrite append_assoc, <- Er. exact Hs. }
  split; [rewrite (urlTail_plain D _ Hp), urlTail_idem; reflexivity|].
  split.
  { rewrite Ht. f_equal. f_equal; [|apply urlTail_idem].
    subst D. clear -E.
    destruct s as [|c1 [|c2 [|c3 [|c4 [|c5 [|c6 [|c7 [|c8 [|c9 [|c10 [|c11 s]]]]]]]]]]];
      simpl in E; repeat (match type of E with
                          | (if ?b then _ else _) = _ => destruct b; [|discriminate E]
                          end); try discriminate E.
    reflexivity. }
  destruct s as [|c1 [|c2 s]]; simpl in E; try discriminate E.
  { destruct (eqci "w" c1); discriminate E. }
  destruct (eqci "w" c1) eqn:E1; [|discriminate E].
  destruct (eqci "p" c2) eqn:E2; [|discriminate E].
  split.
  - subst D. simpl. eauto.
  - subst D. simpl. rewrite E1.
    destruct (eqci "w" c2) eqn:E3; [|reflexivity].
    destruct (eqci_p_w _ E2 E3).
Qed.

(** A match of [(www\.)?wplace\.live[^\s'Q]*] at the head. *)
Lemma matchWwwDomainTail_shape s m :
  matchWwwDomainTail s = Some m ->
  (exists post, s = m ++ post /\ urlTail post = "")
  /\ urlTail m = m
  /\ matchWwwDomainTail m = Some m
  /\ (exists c m', m = String c m' /\ eqci "w" c = true).
Proof.
  unfold matchWwwDomainTail.
  destruct (stripPrefixCi "www." s) as [r|] eqn:E.
  - destruct (matchDomainTail r) as [m'|] eqn:Ed; cbn [option_map].
    + intros [= <-].
      destruct (matchDomainTail_shape _ _ Ed) as ((post & Er & Hpost) & Hu & Hm & _ & _).
      pose proof (stripPrefixCi_split _ _ _ E) as Hs.
      pose proof (stripPrefixCi_plain "www." _ _ eq_refl E) as Hp.
      pose proof (fun x => stripPrefixCi_take "www." s r x E) as Ht.
      destruct (stripPrefixCi_head _ _ _ _ E) as (c0 & s0 & Es & Ec).
      change (String.length "www.") with 4 in *.
      split.
      { exists post. split; [|exact Hpost]. rewrite append_assoc, <- Er. exact Hs. }
      split; [rewrite (urlTail_plain _ _ Hp), Hu; reflexivity|].
      split.
      { rewrite Ht, Hm. cbn [option_map]. f_equal. f_equal.
        clear -E.
        destruct s as [|c1 [|c2 [|c3 [|c4 s]]]];
          simpl in E; repeat (match type of E with
                              | (if ?b then _ else _) = _ => destruct b; [|discriminate E]
                              end); try discriminate E.
        reflexivity. }
      rewrite Es. simpl. eauto.
    + intros H.
      destruct (matchDomainTail_shape _ _ H) as (H1 & H2 & H3 & H4 & H5).
      rewrite H5, H3. auto.
  - intros H.
    destruct (matchDomainTail_shape _ _ H) as (H1 & H2 & H3 & H4 & H5).
    rewrite H5, H3. auto.
Qed.

Lemma takeN_app_length a b : takeN (String.length a) (a ++ b) = a.
Proof. induction a as [|c a IH]; simpl; [destruct b; reflexivity|]. rewrite IH. reflexivity. Qed.

(** A match of the whole expression at the head. *)
Lemma matchUrlAt_shape s m :
  matchUrlAt s = Some m ->
  (exists post, s = m ++ post /\ urlTail post = "")
  /\ urlTail m = m
  /\ matchUrlAt m = Some m.
Proof.
  unfold matchUrlAt.
  assert (forall m0, matchWwwDomainTail s = Some m0 ->
            (exists post, s = m0 ++ post /\ urlTail post = "")
            /\ urlTail m0 = m0
            /\ match match matchProtocol true m0 with
                     | Some r => option_map
                                   (append (takeN (String.length m0 - String.length r) m0))
                                   (matchWwwDomainTail r)
                     | None => None
                     end with
               | Some m1 => Some m1
               | None => matchWwwDomainTail m0
               end = Some m0) as Hplain.
  { intros m0 H. destruct (matchWwwDomainTail_shape _ _ H) as (H1 & H2 & H3 & c & m' & -> & Hc).
    rewrite (matchProtocol_w c m' Hc), H3. auto. }
  destruct (matchProtocol true s) as [r|] eqn:E; [|apply Hplain].
  destruct (matchWwwDomainTail r) as [m'|] eqn:Ew; cbn [option_map]; [|apply Hplain].
  intros [= <-].
  destruct (matchProtocol_shape _ _ E) as (P & Es & Hp & Hx & _).
  destruct (matchWwwDomainTail_shape _ _ Ew) as ((post & Er & Hpost) & Hu & Hm & _).
  assert (takeN (String.length s - String.length r) s = P) as ->.
  { rewrite Es at 1 2. rewrite append_length.
    replace (String.length P + String.length r - String.length r)
      with (String.length P) by lia.
    apply takeN_app_length. }
  split.
  { exists post. split; [|exact Hpost]. rewrite append_assoc, <- Er. exact Es. }
  split; [rewrite (urlTail_plain _ _ Hp), Hu; reflexivity|].
  rewrite Hx, Hm. cbn [option_map].
  rewrite append_length.
  replace (String.length P + String.length m' - String.length m')
    with (String.length P) by lia.
  rewrite takeN_app_length. reflexivity.
Qed.

Lemma reUrlMatch_shape s m :
  reUrlMatch s = Some m ->
  (exists pre post, s = pre ++ m ++ post /\ urlTail post = "")
  /\ urlTail m = m
  /\ matchUrlAt m = Some m.
Proof.
  induction s as [|c r IH]; rewrite reUrlMatch_unfold.
  - destruct (matchUrlAt "") eqn:E; [|discriminate].
    intros [= <-]. destruct (matchUrlAt_shape _ _ E) as ((post & Es & Hp) & H2 & H3).
    split; [exists "", post; auto|auto].
  - destruct (matchUrlAt (String c r)) eqn:E.
    + intros [= <-]. destruct (matchUrlAt_shape _ _ E) as ((post & Es & Hp) & H2 & H3).
      split; [exists "", post; auto|auto].
    + intros H. destruct (IH H) as ((pre & post & Es & Hp) & H2 & H3).
      split; [|auto]. exists (String c pre), post. rewrite Es. auto.
Qed.

Lemma matchUrlAt_reUrlMatch m : matchUrlAt m = Some m -> reUrlMatch m = Some m.
Proof. intros H. rewrite reUrlMatch_unfold, H. reflexivity. Qed.

Lemma stripPrefixCi_token s r : stripPrefixCi "wplace.live" s = Some r -> matchUrlAt s <> None.
Proof.
  intros E. unfold matchUrlAt.
  assert (matchWwwDomainTail s <> None) as Hw.
  { unfold matchWwwDomainTail, matchDomainTail at 2. rewrite E.
    destruct (match stripPrefixCi "www." s with
              | Some r0 => option_map (append (takeN 4 s)) (matchDomainTail r0)
              | None => None
              end); discriminate. }
  destruct (match matchProtocol true s with
            | Some r0 => option_map (append (takeN (String.length s - String.length r0) s))
                                    (matchWwwDomainTail r0)
            | None => None
            end); [discriminate|exact Hw].
Qed.

Lemma containsToken_reUrlMatch s : containsToken s = true -> reUrlMatch s <> None.
Proof.
  induction s as [|c r IH]; rewrite containsToken_unfold, reUrlMatch_unfold.
  - discriminate.
  - destruct (stripPrefixCi "wplace.live" (String c r)) as [t|] eqn:E.
    + intros _. pose proof (stripPrefixCi_token _ _ E).
      destruct (matchUrlAt (String c r)); [discriminate|contradiction].
    + intros H. destruct (matchUrlAt (String c r)); [discriminate|apply (IH H)].
Qed.

Lemma stripPrefixCi_app p s r x :
  stripPrefixCi p s = Some r -> stripPrefixCi p (s ++ x) = Some (r ++ x).
Proof.
  revert s. induction p as [|a p IH]; intros s; simpl.
  - intros [= ->]. destruct (r ++ x); reflexivity.
  - destruct s as [|b s]; [discriminate|]. simpl.
    destruct (eqci a b); [apply IH|discriminate].
Qed.

Lemma containsToken_app_r m post :
  containsToken m = true -> containsToken (m ++ post) = true.
Proof.
  induction m as [|c m IH]; [discriminate|].
  rewrite containsToken_unfold.
  change (String c m ++ post) with (String c (m ++ post)).
  rewrite (containsToken_unfold (String c (m ++ post))).
  destruct (stripPrefixCi "wplace.live" (String c m)) as [t|] eqn:E.
  - intros _. change (String c (m ++ post)) with (String c m ++ post).
    rewrite (stripPrefixCi_app _ _ _ post E). reflexivity.
  - intros H. rewrite (IH H).
    destruct (stripPrefixCi "wplace.live" (String c (m ++ post))); reflexivity.
Qed.

Lemma reUrlMatch_containsToken s m : reUrlMatch s = Some m -> containsToken s = true.
Proof.
  intros H. destruct (reUrlMatch_shape _ _ H) as ((pre & post & -> & _) & _).
  apply containsToken_app, containsToken_app_r, (reUrlMatch_token _ _ H).
Qed.

Lemma reUrlMatch_none_iff text : reUrlMatch text = None <-> containsToken text = false.
Proof.
  split.
  - intros H. destruct (containsToken text) eqn:E; [|reflexivity].
    destruct (containsToken_reUrlMatch _ E H).
  - intros H. destruct (reUrlMatch text) as [m|] eqn:E; [|reflexivity].
    rewrite (reUrlMatch_containsToken _ _ E) in H. discriminate H.
Qed.

(** X4.  [extractWplaceUrl] answers [null] exactly on the texts that do not
    contain [wplace.live], letters of either case; and on such a text the
    extractor answers [null] too, whatever the URL parser. *)
Theorem extractWplaceUrl_null_iff (text : string) :
  (extractWplaceUrl text = None <-> containsToken text = false)
  /\ (containsToken text = false ->
      forall parseHost, extractAndFormatUrl parseHost text = None).
Proof.
  split.
  - unfold extractWplaceUrl. destruct text as [|c r]; [split; reflexivity|].
    apply reUrlMatch_none_iff.
  - intros H parseHost. unfold extractAndFormatUrl.
    rewrite (proj2 (reUrlMatch_none_iff text) H).
    destruct (negb (truthy text)); reflexivity.
Qed.

Lemma urlTail_fixed_chars m : urlTail m = m -> allChars notBlankOrQuote m = true.
Proof.
  induction m as [|c r IH]; [reflexivity|].
  cbn [urlTail allChars].
  destruct (startsWs (String c r) || Ascii.eqb c aposChar || Ascii.eqb c quoteChar) eqn:B;
    [discriminate|].
  intros [= E]. rewrite (IH E), andb_true_r.
  apply orb_false_iff in B as [B Hq]. apply orb_false_iff in B as [Hw Ha].
  revert Hw Ha Hq. unfold startsWs.
  ascii_cases c; cbn; congruence.
Qed.

(** X5.  The match of the script's expression is a contiguous piece of the
    text: it contains [wplace.live], it holds no white space and no quote
    (the class of its tail consumes the whole of it), and what follows it in
    the text is nothing, white space or a quote. *)
Theorem match_is_fragment (text m : string) :
  extractWplaceUrl text = Some m ->
  (exists pre post, text = pre ++ m ++ post /\ urlTail post = "")
  /\ urlTail m = m
  /\ allChars notBlankOrQuote m = true
  /\ containsToken m = true.
Proof.
  unfold extractWplaceUrl. destruct (negb (truthy text)); [discriminate|].
  intros H. destruct (reUrlMatch_shape _ _ H) as (H1 & H2 & _).
  split; [exact H1|]. split; [exact H2|].
  split; [apply urlTail_fixed_chars, H2|apply (reUrlMatch_token _ _ H)].
Qed.

Lemma match_is_fragment_witness :
  (exists pre post,
      "see 'https://www.wplace.live/?lat=1&lng=2' here"
      = pre ++ "https://www.wplace.live/?lat=1&lng=2" ++ post /\ urlTail post = "")
  /\ urlTail "https://www.wplace.live/?lat=1&lng=2" = "https://www.wplace.live/?lat=1&lng=2"
  /\ allChars notBlankOrQuote "https://www.wplace.live/?lat=1&lng=2" = true
  /\ containsToken "https://www.wplace.live/?lat=1&lng=2" = true.
Proof.
  apply (match_is_fragment "see 'https://www.wplace.live/?lat=1&lng=2' here").
  vm_compute. reflexivity.
Defined.

Section Fragments.

Variable parseHost : bool -> string -> option string.

(** X6.  The extractor looks at the match only: on a text and on the match
    it finds in it, [extractAndFormatUrl] gives the same result, and the
    match is its own match. *)
Theorem extract_depends_on_match (text m : string) :
  reUrlMatch text = Some m ->
  reUrlMatch m = Some m
  /\ extractWplaceUrl m = Some m
  /\ extractAndFormatUrl parseHost text = extractAndFormatUrl parseHost m.
Proof.
  intros H. destruct (reUrlMatch_shape _ _ H) as (_ & _ & Hm).
  pose proof (matchUrlAt_reUrlMatch _ Hm) as Hr.
  pose proof (reUrlMatch_truthy _ _ Hr) as Ht.
  split; [exact Hr|].
  split; [unfold extractWplaceUrl; rewrite Ht; exact Hr|].
  unfold extractAndFormatUrl.
  rewrite (reUrlMatch_truthy _ _ H), Ht, H, Hr. reflexivity.
Qed.

Lemma firstWplaceUrl_none texts :
  firstWplaceUrl texts = None <-> Forall (fun t => containsToken t = false) texts.
Proof.
  induction texts as [|t r IH]; cbn [firstWplaceUrl].
  - split; [constructor|reflexivity].
  - unfold extractWplaceUrl.
    destruct (reUrlMatch t) as [u|] eqn:E.
    + rewrite (reUrlMatch_truthy _ _ E). cbn [negb].
      assert (truthy u = true) as ->.
      { pose proof (reUrlMatch_token _ _ E) as Hu. destruct u; [discriminate Hu|reflexivity]. }
      split; [discriminate|].
      intros HF. inversion HF as [|? ? Ht _]; subst.
      rewrite (reUrlMatch_containsToken _ _ E) in Ht. discriminate Ht.
    + apply reUrlMatch_none_iff in E.
      assert ((if negb (truthy t) then None else @None string) = None) as ->
        by (destruct (negb (truthy t)); reflexivity).
      rewrite IH.
      split; [intros HF; constructor; assumption|].
      intros HF. inversion HF; assumption.
Qed.

(** X7.  The click handler announces that no link was found, copying that
    announcement instead of a link, exactly when none of the texts it looks
    at (the button and three ancestors, the candidates under the parent, the
    candidates of the document) contains [wplace.live], letters of either
    case. *)
Theorem no_link_found_iff (p : pageTexts) :
  (findCandidateString p = None
   <-> Forall (fun t => containsToken t = false)
              (firstn 4 (ancestorTexts p) ++ containerTexts p ++ documentTexts p))
  /\ (onClick parseHost p = NoCandidate <-> findCandidateString p = None).
Proof.
  split.
  - unfold findCandidateString. rewrite !Forall_app, <- !firstWplaceUrl_none.
    destruct (firstWplaceUrl (firstn 4 (ancestorTexts p))),
      (firstWplaceUrl (containerTexts p)), (firstWplaceUrl (documentTexts p));
      intuition congruence.
  - unfold onClick. destruct (findCandidateString p) as [raw|]; [|tauto].
    destruct (normalizeAndRoundUrl parseHost raw) as [n|]; [destruct (truthy n)|];
      split; discriminate.
Qed.

Lemma schemeState_stop tail :
  startsPathQueryOrFragment tail = true -> schemeState tail = None.
Proof.
  destruct tail as [|c r]; [reflexivity|]. cbn [startsPathQueryOrFragment schemeState].
  intros H.
  assert (isAlnum c || oneOf "+-." c = false /\ Ascii.eqb c ":" = false) as [-> ->]
    by (revert H; ascii_cases c; vm_compute; intros; try discriminate; split; reflexivity).
  reflexivity.
Qed.

(** X8.  The ordinary link never reaches the URL parser as a URL.  For a
    link in lower case, [http://] or [https://], with or without [www.],
    whose domain is followed by nothing or by a path, a query or a fragment
    of printable ASCII characters, the protocol is removed before [new URL]
    is called, which throws; the result of the extractor is that of its
    manual path on the text after the first question mark, for every URL
    parser. *)
Theorem lowercase_protocol_takes_fallback (secure www : bool) (tail : string) :
  allChars tailChar tail = true ->
  startsPathQueryOrFragment tail = true ->
  parseURL parseHost (structuredUrlString (lowercaseLink secure www tail)) = None
  /\ extractAndFormatUrl parseHost (lowercaseLink secure www tail)
     = match afterFirstQuestionMark tail with
       | Some qs => formatFallback (newURLSearchParams qs)
       | None => None
       end.
Proof.
  intros Ht Hs. set (link := lowercaseLink secure www tail). unfold lowercaseLink in link.
  assert (allChars printable tail = true) as Hp
    by (revert Ht; apply allChars_impl, tailChar_printable).
  assert (reUrlMatch link = Some link) as Hm.
  { apply matchUrlAt_reUrlMatch. subst link.
    destruct secure, www; unfold matchUrlAt, matchWwwDomainTail, matchDomainTail;
      simpl; rewrite (urlTail_id tail Ht);
      match goal with
      | |- context [takeN (?a - ?b) _] =>
          first [replace (a - b) with 8 by lia | replace (a - b) with 7 by lia]
      end; reflexivity. }
  assert (parseURL parseHost (structuredUrlString link) = None) as Hu.
  { subst link. unfold parseURL, urlPreprocess.
    destruct secure, www;
      [change (structuredUrlString ("https://" ++ "www." ++ "wplace.live" ++ tail))
         with ("www.wplace.live" ++ tail)
      |change (structuredUrlString ("https://" ++ "" ++ "wplace.live" ++ tail))
         with ("wplace.live" ++ tail)
      |change (structuredUrlString ("http://" ++ "www." ++ "wplace.live" ++ tail))
         with ("www.wplace.live" ++ tail)
      |change (structuredUrlString ("http://" ++ "" ++ "wplace.live" ++ tail))
         with ("wplace.live" ++ tail)];
      match goal with
      | |- context [stripLeadingC0 (?a ++ tail)] =>
          change (stripLeadingC0 (a ++ tail)) with (a ++ tail);
          rewrite (stripTrailingC0_printable (a ++ tail))
            by (rewrite allChars_app, Hp; reflexivity);
          rewrite (removeTabNewline_printable (a ++ tail))
            by (rewrite allChars_app, Hp; reflexivity)
      end;
      simpl; rewrite (schemeState_stop tail Hs); reflexivity. }
  split; [exact Hu|].
  rewrite (extract_fallback parseHost _ _ Hm Hu). unfold extractFallback.
  subst link. destruct secure, www; reflexivity.
Qed.

End Fragments.

Lemma lowercase_protocol_takes_fallback_witness :
  parseURL plainHost (structuredUrlString "https://wplace.live/?lat=1&lng=2&zoom=5.6789")
  = None
  /\ extractAndFormatUrl plainHost "https://wplace.live/?lat=1&lng=2&zoom=5.6789"
     = formatFallback (newURLSearchParams "lat=1&lng=2&zoom=5.6789").
Proof.
  apply (lowercase_protocol_takes_fallback plainHost true false "/?lat=1&lng=2&zoom=5.6789");
    reflexivity.
Defined.

Lemma extract_depends_on_match_witness :
  reUrlMatch "https://wplace.live/?lat=1&lng=2" = Some "https://wplace.live/?lat=1&lng=2"
  /\ extractWplaceUrl "https://wplace.live/?lat=1&lng=2"
     = Some "https://wplace.live/?lat=1&lng=2"
  /\ extractAndFormatUrl plainHost "go to https://wplace.live/?lat=1&lng=2 now"
     = extractAndFormatUrl plainHost "https://wplace.live/?lat=1&lng=2".
Proof.
  apply (extract_depends_on_match plainHost "go to https://wplace.live/?lat=1&lng=2 now").
  vm_compute. reflexivity.
Defined.

(** *** The sync engine *)

Lemma apply_cases el formatted st :
  applyFormattedIfNeeded el formatted st = st
  \/ exists n,
       nodes st !! el = Some n /\ truthy formatted = true
       /\ currentContent n <> formatted
       /\ applyFormattedIfNeeded el formatted st
          = mkPage (nodes st)
                   (<[el := nextTimer st]> (debounceMap st))
                   (<[nextTimer st := (el, formatted)]>
                      (match debounceMap st !! el with
                       | Some lastTimer => delete lastTimer (timers st)
                       | None => timers st
                       end))
                   (Pos.succ (nextTimer st)).
Proof.
  unfold applyFormattedIfNeeded.
  destruct (nodes st !! el) as [n|]; [|left; reflexivity].
  destruct (truthy formatted); cbn [negb]; [|left; reflexivity].
  destruct (String.eqb_spec (currentContent n) formatted) as [|Hne]; [left; reflexivity|].
  right. exists n. auto.
Qed.

Lemma apply_nodes el formatted st :
  nodes (applyFormattedIfNeeded el formatted st) = nodes st.
Proof.
  destruct (apply_cases el formatted st) as [->|(n & _ & _ & _ & ->)]; reflexivity.
Qed.

Lemma cleared_lookup st el t x :
  pendingConsistent st ->
  match debounceMap st !! el with
  | Some lastTimer => delete lastTimer (timers st)
  | None => timers st
  end !! t = Some x
  <-> timers st !! t = Some x /\ fst x <> el.
Proof.
  intros (H1 & H2 & H3). destruct x as [e g]. cbn [fst].
  destruct (debounceMap st !! el) as [lt|] eqn:E.
  - rewrite lookup_delete_Some. split.
    + intros [Hne Ht]. split; [exact Ht|]. intros ->.
      apply H2 in Ht. congruence.
    + intros [Ht Hne]. split; [|exact Ht]. intros ->.
      destruct (H1 _ _ E) as (f & Hf). congruence.
  - split; [|tauto]. intros Ht. split; [exact Ht|]. intros ->.
    apply H2 in Ht. congruence.
Qed.

Lemma apply_consistent el formatted st :
  pendingConsistent st -> pendingConsistent (applyFormattedIfNeeded el formatted st).
Proof.
  intros Hc. destruct (apply_cases el formatted st) as [->|(n & _ & _ & _ & ->)];
    [exact Hc|].
  pose proof Hc as (H1 & H2 & H3).
  assert (timers st !! nextTimer st = None) as Hfresh.
  { destruct (timers st !! nextTimer st) eqn:E; [|reflexivity].
    specialize (H3 (nextTimer st) ltac:(rewrite E; eauto)). lia. }
  split; [|split]; cbn [debounceMap timers nextTimer].
  - intros e t. rewrite lookup_insert_Some. intros [[<- <-]|[Hne He]].
    + exists formatted. apply lookup_insert_eq.
    + destruct (H1 _ _ He) as (f & Hf). exists f.
      rewrite lookup_insert_ne by congruence.
      apply (cleared_lookup st el t (e, f) Hc). split; [exact Hf|]. cbn. congruence.
  - intros t e f. rewrite lookup_insert_Some. intros [[<- [= <- <-]]|[Hne Ht]].
    + apply lookup_insert_eq.
    + apply (cleared_lookup st el t (e, f) Hc) in Ht as [Ht He]. cbn in He.
      rewrite lookup_insert_ne by congruence. apply (H2 _ _ _ Ht).
  - intros t [x Hx]. apply lookup_insert_Some in Hx as [[<- _]|[Hne Ht]]; [lia|].
    destruct x as [e g]. apply (cleared_lookup st el t (e, g) Hc) in Ht as [Ht _].
    specialize (H3 t ltac:(rewrite Ht; eauto)). lia.
Qed.

Lemma fire_consistent t st :
  pendingConsistent st -> pendingConsistent (fireTimer t st).
Proof.
  intros Hc. pose proof Hc as (H1 & H2 & H3). unfold fireTimer.
  destruct (timers st !! t) as [[el formatted]|] eqn:E; [|exact Hc].
  pose proof (H2 _ _ _ E) as Hd.
  split; [|split]; cbn [debounceMap timers nextTimer].
  - intros e t'. rewrite lookup_delete_Some. intros [Hne He].
    destruct (H1 _ _ He) as (f & Hf). exists f.
    rewrite lookup_delete_ne; [exact Hf|]. intros <-. congruence.
  - intros t' e f. rewrite lookup_delete_Some. intros [Hne Ht].
    rewrite lookup_delete_ne; [apply (H2 _ _ _ Ht)|].
    intros <-. apply H2 in Ht. congruence.
  - intros t' [x Hx]. apply lookup_delete_Some in Hx as [_ Hx].
    apply H3. eauto.
Qed.

Section SyncProperties.

Variable parseHost : bool -> string -> option string.

Lemma processElement_cases lay el st :
  processElement parseHost lay el st = st
  \/ exists formatted, processElement parseHost lay el st
                       = applyFormattedIfNeeded el formatted st.
Proof.
  unfold processElement. destruct (nodes st !! el); [|auto].
  destruct (extractAndFormatUrl parseHost (findRenderedText lay st el)) as [f|]; [|auto].
  destruct (truthy f); eauto.
Qed.

Lemma processElement_consistent lay el st :
  pendingConsistent st -> pendingConsistent (processElement parseHost lay el st).
Proof.
  intros Hc. destruct (processElement_cases lay el st) as [->|(f & ->)];
    [exact Hc|apply apply_consistent, Hc].
Qed.

Lemma processElement_nodes lay el st :
  nodes (processElement parseHost lay el st) = nodes st.
Proof.
  destruct (processElement_cases lay el st) as [->|(f & ->)];
    [reflexivity|apply apply_nodes].
Qed.

Lemma processAll_consistent lay els st :
  pendingConsistent st ->
  pendingConsistent (fold_left (fun s el => processElement parseHost lay el s) els st).
Proof.
  revert st. induction els as [|el r IH]; intros st Hc; [exact Hc|].
  apply IH, processElement_consistent, Hc.
Qed.

Lemma processAll_nodes lay els st :
  nodes (fold_left (fun s el => processElement parseHost lay el s) els st) = nodes st.
Proof.
  revert st. induction els as [|el r IH]; intros st; [reflexivity|].
  cbn [fold_left]. rewrite IH. apply processElement_nodes.
Qed.

(** X9.  The script keeps its pending rewrites consistent: if every
    element of the debounce map names a pending timer that captured that
    element, and every pending timer is named by its element, this still
    holds after [applyFormattedIfNeeded], after a scan and after a timer has
    fired; and then an element never has two rewrites pending. *)
Theorem pending_rewrites_consistent (lay : layout) (st : page) :
  pendingConsistent st ->
  (forall el formatted, pendingConsistent (applyFormattedIfNeeded el formatted st))
  /\ pendingConsistent (scanAndProcess parseHost lay st)
  /\ (forall t, pendingConsistent (fireTimer t st))
  /\ (forall t1 t2 el f1 f2,
         timers st !! t1 = Some (el, f1) -> timers st !! t2 = Some (el, f2) ->
         t1 = t2 /\ f1 = f2).
Proof.
  intros Hc.
  split; [intros; apply apply_consistent, Hc|].
  split; [apply processAll_consistent, Hc|].
  split; [intros; apply fire_consistent, Hc|].
  intros t1 t2 el f1 f2 E1 E2. destruct Hc as (_ & H2 & _).
  pose proof (H2 _ _ _ E1) as D1. pose proof (H2 _ _ _ E2) as D2.
  assert (t1 = t2) as <- by congruence.
  split; [reflexivity|congruence].
Qed.

(** What [applyFormattedIfNeeded] leaves of the other elements. *)
Lemma apply_others el formatted st e :
  pendingConsistent st -> e <> el ->
  debounceMap (applyFormattedIfNeeded el formatted st) !! e = debounceMap st !! e
  /\ forall t g, timers (applyFormattedIfNeeded el formatted st) !! t = Some (e, g)
                 <-> timers st !! t = Some (e, g).
Proof.
  intros Hc He.
  destruct (apply_cases el formatted st) as [->|(n & _ & _ & _ & ->)]; [tauto|].
  pose proof Hc as (H1 & H2 & H3). cbn [debounceMap timers].
  split; [apply lookup_insert_ne; congruence|].
  intros t g. rewrite lookup_insert_Some. split.
  - intros [[_ [= ? _]]|[_ Hx]]; [congruence|].
    apply (cleared_lookup st el t (e, g) Hc) in Hx. tauto.
  - intros Hx. right. split.
    + intros <-. specialize (H3 (nextTimer st) ltac:(rewrite Hx; eauto)). lia.
    + apply (cleared_lookup st el t (e, g) Hc). auto.
Qed.


(** X11.  A scan writes nothing: [scanAndProcess] leaves every node of the
    page as it is (the writes are made by the timers), and for an element
    that is not a target it leaves the debounce map and the pending rewrites
    as they were. *)
Theorem scan_writes_nothing (lay : layout) (st : page) :
  pendingConsistent st ->
  nodes (scanAndProcess parseHost lay st) = nodes st
  /\ (forall el, isTarget st el = false ->
        debounceMap (scanAndProcess parseHost lay st) !! el = debounceMap st !! el
        /\ forall t g, timers (scanAndProcess parseHost lay st) !! t = Some (el, g)
                       <-> timers st !! t = Some (el, g)).
Proof.
  intros Hc. split; [apply processAll_nodes|].
  intros el Hel. unfold scanAndProcess.
  assert (Forall (fun e => e <> el) (targetInputs lay st)) as Hall.
  { apply Forall_forall. intros e He. unfold targetInputs in He.
    apply list_elem_of_In, filter_In in He as [_ He]. congruence. }
  revert Hc Hall. generalize (targetInputs lay st) as els. clear Hel.
  intros els. revert st. induction els as [|e r IH]; intros st Hc Hall; [tauto|].
  inversion Hall as [|? ? He Hr]; subst. cbn [fold_left].
  specialize (IH _ (processElement_consistent lay e st Hc) Hr) as [IH1 IH2].
  assert (debounceMap (processElement parseHost lay e st) !! el = debounceMap st !! el
          /\ forall t g, timers (processElement parseHost lay e st) !! t = Some (el, g)
                         <-> timers st !! t = Some (el, g)) as [P1 P2].
  { destruct (processElement_cases lay e st) as [->|(f & ->)]; [tauto|].
    apply (apply_others e f st el Hc). congruence. }
  split; [rewrite IH1; exact P1|].
  intros t g. rewrite IH2. apply P2.
Qed.

End SyncProperties.

Lemma pendingPage_consistent text formatted : pendingConsistent (pendingPage text formatted).
Proof.
  unfold pendingConsistent, pendingPage. cbn [debounceMap timers nextTimer].
  split; [|split].
  - intros el t [<- <-]%lookup_singleton_Some. exists formatted. apply lookup_singleton_eq.
  - intros t el f [<- [= <- <-]]%lookup_singleton_Some. apply lookup_singleton_eq.
  - intros t [x [<- _]%lookup_singleton_Some]. lia.
Qed.





Section Convergence.

Variable parseHost : bool -> string -> option string.


(** X13.  On an element that has no [value] property but a non-empty
    [value] attribute, the write does not change what the script reads of
    the element; so when the attribute is not the Normalized String, the
    rewrite that has just been applied is scheduled again by the next
    [applyFormattedIfNeeded]. *)
Theorem hidden_write_repeats (st : page) (t : positive) (el : nat) (n : node)
    (a formatted : string) :
  nodes st !! el = Some n ->
  nodeValue n = None ->
  nodeAttrs n !! "value" = Some a ->
  truthy a = true ->
  truthy formatted = true ->
  trim a <> formatted ->
  timers st !! t = Some (el, formatted) ->
  currentContent (writeNode n formatted) = currentContent n
  /\ debounceMap (applyFormattedIfNeeded el formatted (fireTimer t st)) !! el
     = Some (nextTimer st)
  /\ timers (applyFormattedIfNeeded el formatted (fireTimer t st)) !! nextTimer st
     = Some (el, formatted).
Proof.
  intros Hn Hv Ha Hta Htf Hne Ht.
  assert (forall m, nodeValue m = None -> nodeAttrs m !! "value" = Some a ->
                    currentContent m = trim a) as Hcur.
  { intros m Hm1 Hm2. unfold currentContent. rewrite Hm1, Hm2.
    cbn [orElse]. rewrite Hta. reflexivity. }
  assert (nodeValue (writeNode n formatted) = None
          /\ nodeAttrs (writeNode n formatted) !! "value" = Some a) as [W1 W2].
  { unfold writeNode, tryWrite. rewrite Hv.
    destruct (nodeInnerText n), (innerTextSetterThrows n); cbn [option_map];
      cbn [nodeValue nodeAttrs setAttribute setInnerText setTextContent];
      rewrite ?lookup_insert_ne by discriminate; auto. }
  split; [rewrite (Hcur _ W1 W2), (Hcur _ Hv Ha); reflexivity|].
  assert (nodes (fireTimer t st) !! el = Some (writeNode n formatted)) as Hn'.
  { unfold fireTimer. rewrite Ht, Hn. cbn [nodes]. apply lookup_insert_eq. }
  assert (nextTimer (fireTimer t st) = nextTimer st) as Hnext
    by (unfold fireTimer; rewrite Ht; reflexivity).
  unfold applyFormattedIfNeeded. rewrite Hn', Htf, (Hcur _ W1 W2). cbn [negb].
  destruct (String.eqb_spec (trim a) formatted) as [|_]; [contradiction|].
  cbn [debounceMap timers]. rewrite Hnext.
  split; apply lookup_insert_eq.
Qed.



End Convergence.

(** *** The listeners and the retry loop *)

Lemma bindEventsTo_boundOnce el b : boundOnce b -> boundOnce (bindEventsTo el b).
Proof.
  intros [Hd Hb]. unfold bindEventsTo.
  destruct (bool_decide_reflect (el ∈ boundElements b)) as [Hin|Hnin]; [split; assumption|].
  split; cbn [listeners boundElements].
  - apply NoDup_app. split; [exact Hd|]. split.
    + intros [e ty] He Hn. apply Hb in He as [He _].
      assert (e = el) as -> by set_solver. contradiction.
    + repeat (apply NoDup_cons; split; [set_solver|]). apply NoDup_nil_2.
  - intros e ty. rewrite elem_of_app, Hb. set_solver.
Qed.

Lemma bindEventsTo_bound el b : el ∈ boundElements (bindEventsTo el b).
Proof.
  unfold bindEventsTo.
  destruct (bool_decide_reflect (el ∈ boundElements b)); [assumption|].
  cbn [boundElements]. set_solver.
Qed.

Lemma bindEventsTo_mono el e b :
  e ∈ boundElements b -> e ∈ boundElements (bindEventsTo el b).
Proof.
  unfold bindEventsTo.
  destruct (bool_decide_reflect (el ∈ boundElements b)); [trivial|].
  cbn [boundElements]. set_solver.
Qed.

Lemma bindEventsTo_fixed el b : el ∈ boundElements b -> bindEventsTo el b = b.
Proof.
  intros H. unfold bindEventsTo. rewrite bool_decide_eq_true_2 by exact H. reflexivity.
Qed.

Lemma bindAll_spec els b :
  boundOnce b ->
  boundOnce (fold_left (fun b el => bindEventsTo el b) els b)
  /\ (forall e, e ∈ boundElements b \/ e ∈ els ->
                e ∈ boundElements (fold_left (fun b el => bindEventsTo el b) els b)).
Proof.
  revert b. induction els as [|el r IH]; intros b Hb; cbn [fold_left].
  - split; [exact Hb|]. intros e [He|He]; [exact He|set_solver].
  - destruct (IH _ (bindEventsTo_boundOnce el b Hb)) as [I1 I2].
    split; [exact I1|]. intros e [He|He]; apply I2.
    + left. apply bindEventsTo_mono, He.
    + apply elem_of_cons in He as [->|He]; [left; apply bindEventsTo_bound|right; exact He].
Qed.

Lemma bindAll_fixed els b :
  (forall e, e ∈ els -> e ∈ boundElements b) ->
  fold_left (fun b el => bindEventsTo el b) els b = b.
Proof.
  induction els as [|el r IH]; intros H; cbn [fold_left]; [reflexivity|].
  rewrite (bindEventsTo_fixed el b) by (apply H; left).
  apply IH. intros e He. apply H. right. exact He.
Qed.

Lemma runOnce {A} (k : nat * string) (g : A -> A) (l : list (nat * string)) (s : A) :
  NoDup l ->
  fold_left (fun s x => if bool_decide (x = k) then g s else s) l s
  = if bool_decide (k ∈ l) then g s else s.
Proof.
  revert s. induction l as [|x r IH]; intros s Hd; cbn [fold_left].
  - rewrite bool_decide_eq_false_2 by set_solver. reflexivity.
  - apply NoDup_cons in Hd as [Hx Hr]. rewrite (IH _ Hr).
    destruct (bool_decide_reflect (x = k)) as [->|Hne].
    + rewrite (bool_decide_eq_false_2 (k ∈ r)) by exact Hx.
      rewrite bool_decide_eq_true_2 by set_solver. reflexivity.
    + destruct (bool_decide_reflect (k ∈ r)) as [Hin|Hnin].
      * rewrite bool_decide_eq_true_2 by set_solver. reflexivity.
      * rewrite bool_decide_eq_false_2 by set_solver. reflexivity.
Qed.

Section Listeners.

Variable parseHost : bool -> string -> option string.

(** X15.  The listeners are installed once.  Starting from bindings in
    which no listener is registered twice, [bindExistingAndFuture] keeps it
    so however often it runs: a second run on the same page changes nothing,
    and an [input], [change] or [blur] event on a target element runs
    [processElement] on it exactly once. *)
Theorem listeners_installed_once (lay : layout) (st : page) (b : bindings) :
  boundOnce b ->
  boundOnce (bindExistingAndFuture lay st b)
  /\ bindExistingAndFuture lay st (bindExistingAndFuture lay st b)
     = bindExistingAndFuture lay st b
  /\ (forall el type s,
        el ∈ targetInputs lay st -> type ∈ ["input"; "change"; "blur"] ->
        runListeners parseHost lay (bindExistingAndFuture lay st b) el type s
        = processElement parseHost lay el s).
Proof.
  intros Hb. unfold bindExistingAndFuture.
  destruct (bindAll_spec (targetInputs lay st) b Hb) as [[Hd Hl] Hin].
  split; [split; assumption|].
  split; [apply bindAll_fixed; intros e He; apply Hin; right; exact He|].
  intros el type s He Hty. unfold runListeners.
  rewrite (runOnce (el, type) (processElement parseHost lay el) _ s Hd).
  rewrite bool_decide_eq_true_2; [reflexivity|].
  apply Hl. split; [apply Hin; right; exact He|exact Hty].
Qed.

(** X16.  A scan is idle on a settled page: when, for every target
    element, the extractor finds nothing in the text of the element or finds
    the very string the element shows, [scanAndProcess] leaves the page as
    it is, timers included. *)
Theorem scan_idle_when_settled (lay : layout) (st : page) :
  (forall el, el ∈ targetInputs lay st ->
     exists n, nodes st !! el = Some n
               /\ (extractAndFormatUrl parseHost (findRenderedText lay st el) = None
                   \/ extractAndFormatUrl parseHost (findRenderedText lay st el)
                      = Some (currentContent n))) ->
  scanAndProcess parseHost lay st = st.
Proof.
  unfold scanAndProcess. generalize (targetInputs lay st) as els.
  induction els as [|el r IH]; intros H; cbn [fold_left]; [reflexivity|].
  assert (processElement parseHost lay el st = st) as ->.
  { destruct (H el ltac:(left)) as (n & Hn & [E|E]);
      unfold processElement; rewrite Hn, E; [reflexivity|].
    destruct (truthy (currentContent n)); [|reflexivity].
    unfold applyFormattedIfNeeded. rewrite Hn, String.eqb_refl.
    destruct (negb (truthy (currentContent n))); reflexivity. }
  apply IH. intros e He. apply H. right. exact He.
Qed.

End Listeners.

Lemma tryInstallLater_spec fuel found a :
  a < maxAttempts -> maxAttempts <= a + fuel ->
  let '(n, delays, ok) := tryInstallLater fuel found a in
  a < n <= maxAttempts
  /\ delays = map (fun k => 400 + k * 150) (seq (S a) (n - S a))
  /\ ok = found n
  /\ (forall k, a < k < n -> found k = false)
  /\ (ok = false -> n = maxAttempts).
Proof.
  revert a. induction fuel as [|fuel IH]; intros a Ha Hf; [lia|].
  cbn [tryInstallLater].
  destruct (found (S a)) eqn:E.
  - replace (S a - S a) with 0 by lia.
    split; [lia|]. split; [reflexivity|]. split; [symmetry; exact E|].
    split; [intros; lia|discriminate].
  - destruct (Nat.ltb_spec (S a) maxAttempts) as [Hlt|Hge].
    + specialize (IH (S a) Hlt ltac:(lia)).
      destruct (tryInstallLater fuel found (S a)) as [[n delays] ok].
      destruct IH as (I1 & I2 & I3 & I4 & I5).
      split; [lia|]. split.
      { replace (n - S a) with (S (n - S (S a))) by lia. cbn [seq map]. rewrite I2.
        reflexivity. }
      split; [exact I3|]. split; [|exact I5].
      intros k Hk. destruct (Nat.eq_dec k (S a)) as [->|]; [exact E|apply I4; lia].
    + replace (S a - S a) with 0 by lia.
      split; [lia|]. split; [reflexivity|]. split; [symmetry; exact E|].
      split; [intros; lia|intros _; lia].
Qed.

(** X17.  The retry loop is bounded.  Whatever the page does,
    [tryInstallLater] makes at most eight attempts; it stops at the first
    attempt that finds the button, or gives up after the eighth; between the
    attempts it waits 550, 700, ... milliseconds, at most seven seconds in
    all; and more timers than eight change nothing. *)
Theorem tryInstallLater_bounded (found : nat -> bool) (fuel : nat) :
  maxAttempts <= fuel ->
  tryInstallLater fuel found 0 = tryInstallLater maxAttempts found 0
  /\ let '(n, delays, ok) := tryInstallLater fuel found 0 in
     1 <= n <= 8
     /\ delays = map (fun k => 400 + k * 150) (seq 1 (n - 1))
     /\ list_sum delays <= 7000
     /\ (ok = true <-> exists k, 1 <= k <= 8 /\ found k = true)
     /\ (ok = true -> found n = true /\ forall k, 1 <= k < n -> found k = false).
Proof.
  intros Hf.
  pose proof (tryInstallLater_spec fuel found 0 ltac:(unfold maxAttempts; lia) ltac:(lia)) as H1.
  pose proof (tryInstallLater_spec maxAttempts found 0 ltac:(unfold maxAttempts; lia)
                ltac:(lia)) as H2.
  destruct (tryInstallLater fuel found 0) as [[n ds] ok].
  destruct (tryInstallLater maxAttempts found 0) as [[n' ds'] ok'].
  destruct H1 as (A1 & A2 & A3 & A4 & A5), H2 as (B1 & B2 & B3 & B4 & B5).
  unfold maxAttempts in *.
  assert (n = n') as <-.
  { destruct (Nat.lt_trichotomy n n') as [Hlt|[->|Hgt]]; [|reflexivity|].
    - pose proof (B4 n ltac:(lia)) as Hn. rewrite <- A3 in Hn. specialize (A5 Hn). lia.
    - pose proof (A4 n' ltac:(lia)) as Hn. rewrite <- B3 in Hn. specialize (B5 Hn). lia. }
  split; [rewrite A2, B2, A3, B3; reflexivity|].
  split; [lia|]. split; [exact A2|].
  split.
  { rewrite A2. clear -A1.
    assert (n = 1 \/ n = 2 \/ n = 3 \/ n = 4 \/ n = 5 \/ n = 6 \/ n = 7 \/ n = 8) as Hn by lia.
    destruct Hn as [->|[->|[->|[->|[->|[->|[->| ->]]]]]]]; vm_compute; lia. }
  split.
  - split.
    + intros ->. exists n. split; [lia|symmetry; exact A3].
    + intros (k & Hk & Hfk). destruct ok; [reflexivity|].
      specialize (A5 eq_refl). subst n.
      destruct (Nat.eq_dec k 8) as [->|]; [congruence|].
      rewrite (A4 k ltac:(lia)) in Hfk. discriminate Hfk.
  - intros ->. split; [symmetry; exact A3|]. intros k Hk. apply A4. lia.
Qed.

Lemma tryInstallLater_bounded_witness :
  tryInstallLater 20 (fun k => Nat.eqb k 3) 0
  = tryInstallLater maxAttempts (fun k => Nat.eqb k 3) 0
  /\ let '(n, delays, ok) := tryInstallLater 20 (fun k => Nat.eqb k 3) 0 in
     1 <= n <= 8
     /\ delays = map (fun k => 400 + k * 150) (seq 1 (n - 1))
     /\ list_sum delays <= 7000
     /\ (ok = true <-> exists k, 1 <= k <= 8 /\ Nat.eqb k 3 = true)
     /\ (ok = true -> Nat.eqb n 3 = true /\ forall k, 1 <= k < n -> Nat.eqb k 3 = false).
Proof.
  apply (tryInstallLater_bounded (fun k => Nat.eqb k 3) 20).
  unfold maxAttempts. lia.
Defined.

(** *** Witnesses on small pages *)

Lemma noBindings_boundOnce : boundOnce noBindings.
Proof.
  split; [apply NoDup_nil_2|]. intros el type. cbn. set_solver.
Qed.

Lemma targetInputs_targetPage text : targetInputs targetLayout (targetPage text) = [0].
Proof. vm_compute. reflexivity. Qed.

Lemma pending_rewrites_consistent_witness :
  pendingConsistent
    (scanAndProcess plainHost targetLayout
       (pendingPage "https://wplace.live/?lat=1.0004&lng=2" "wplace.live/?lat=1&lng=2")).
Proof.
  apply (pending_rewrites_consistent plainHost targetLayout
           (pendingPage "https://wplace.live/?lat=1.0004&lng=2" "wplace.live/?lat=1&lng=2")).
  apply pendingPage_consistent.
Defined.


Lemma scan_writes_nothing_witness :
  nodes (scanAndProcess plainHost targetLayout
           (pendingPage "https://wplace.live/?lat=1.0004&lng=2" "wplace.live/?lat=1&lng=2"))
  = nodes (pendingPage "https://wplace.live/?lat=1.0004&lng=2" "wplace.live/?lat=1&lng=2").
Proof.
  apply (scan_writes_nothing plainHost targetLayout
           (pendingPage "https://wplace.live/?lat=1.0004&lng=2" "wplace.live/?lat=1&lng=2")).
  apply pendingPage_consistent.
Defined.


Lemma hidden_write_repeats_witness :
  debounceMap
    (applyFormattedIfNeeded 0 "wplace.live/?lat=1&lng=2"
       (fireTimer 1 (attributePage "wplace.live/?lat=1.0004&lng=2"
                                   "wplace.live/?lat=1&lng=2"))) !! 0
  = Some 2%positive.
Proof.
  apply (hidden_write_repeats
           (attributePage "wplace.live/?lat=1.0004&lng=2" "wplace.live/?lat=1&lng=2")
           1 0 (mkNode None {[ "value" := "wplace.live/?lat=1.0004&lng=2" ]} None ""
                       false false)
           "wplace.live/?lat=1.0004&lng=2" "wplace.live/?lat=1&lng=2").
  - apply lookup_singleton_eq.
  - reflexivity.
  - apply lookup_singleton_eq.
  - reflexivity.
  - reflexivity.
  - vm_compute. discriminate.
  - apply lookup_singleton_eq.
Defined.

Lemma listeners_installed_once_witness :
  bindExistingAndFuture targetLayout (targetPage "wplace.live/?lat=1&lng=2")
    (bindExistingAndFuture targetLayout (targetPage "wplace.live/?lat=1&lng=2") noBindings)
  = bindExistingAndFuture targetLayout (targetPage "wplace.live/?lat=1&lng=2") noBindings.
Proof.
  apply (listeners_installed_once plainHost targetLayout
           (targetPage "wplace.live/?lat=1&lng=2") noBindings).
  apply noBindings_boundOnce.
Defined.

Lemma scan_idle_when_settled_witness :
  scanAndProcess plainHost targetLayout (targetPage "wplace.live/?lat=1&lng=2")
  = targetPage "wplace.live/?lat=1&lng=2".
Proof.
  apply (scan_idle_when_settled plainHost targetLayout (targetPage "wplace.live/?lat=1&lng=2")).
  intros el Hel. rewrite targetInputs_targetPage in Hel.
  apply list_elem_of_singleton in Hel as ->.
  exists (targetNode "wplace.live/?lat=1&lng=2").
  split; [apply lookup_singleton_eq|]. right. vm_compute. reflexivity.
Defined.
